(** * Text-to-SQL pipeline (src/app.py): a shallow embedding and its properties

    The program is a linear pipeline: inspect the schema of an uploaded SQLite
    file, build a prompt, ask a text-generation service for a query, clean the
    answer, correct the letter-casing of schema names in it, execute it and
    render the rows.

    Python [str] values are modelled as lists of characters.  A character is a
    code point below 256, carried by [ascii]; on that range [str.lower] and
    [str.isspace] are written out below as CPython computes them.

    Beyond that range [str.lower] can change the number of code points, and
    the query corrector with it the length of a query.  The corrector is
    therefore written a second time on sequences of code points of any size
    ([str], [validate_sql_query_str]), with [str.lower] as a parameter of
    which only its values below U+0100 are assumed ([lower_below_256]); on
    text below U+0100 the two corrector functions agree
    ([validate_sql_query_str_below_256]), and what holds only there is stated
    with that restriction. *)

From Stdlib Require Import Ascii String List Bool Arith NArith Lia.
Import ListNotations.

(* ================================================================= *)
(** ** Python strings *)

Definition pystr := list ascii.

(** A string literal as a [pystr]. *)
Definition py (s : string) : pystr := list_ascii_of_string s.

(** [str.lower] on one character: A-Z, and the Latin-1 capitals
    U+00C0..U+00DE except the multiplication sign U+00D7, move up by 32. *)
Definition is_upper (c : ascii) : bool :=
  let n := nat_of_ascii c in
  ((65 <=? n) && (n <=? 90))
  || ((192 <=? n) && (n <=? 222) && negb (n =? 215)).

Definition lower_char (c : ascii) : ascii :=
  if is_upper c then ascii_of_nat (nat_of_ascii c + 32) else c.

(** [s.lower()] *)
Definition lower (s : pystr) : pystr := map lower_char s.

(** [s.startswith(p)] *)
Fixpoint startswith (s p : pystr) {struct p} : bool :=
  match p, s with
  | [], _ => true
  | _ :: _, [] => false
  | a :: p', b :: s' => Ascii.eqb a b && startswith s' p'
  end.

(** [sub in s]: [sub] occurs in [s] at some position. *)
Fixpoint contains (s sub : pystr) : bool :=
  startswith s sub
  || match s with
     | [] => false
     | _ :: s' => contains s' sub
     end.

(** [s.replace(old, new)] for a non-empty [old]: scan from the left; at a
    position where [old] starts, emit [new] and jump over the match ([skip]
    counts the characters of the match still to be passed), otherwise copy
    the character. *)
Fixpoint replace_scan (skip : nat) (s old new : pystr) : pystr :=
  match s with
  | [] => []
  | c :: s' =>
      match skip with
      | S k => replace_scan k s' old new
      | O =>
          if startswith s old
          then new ++ replace_scan (length old - 1) s' old new
          else c :: replace_scan 0 s' old new
      end
  end.

(** [s.replace(old, new)].  With an empty [old], Python inserts [new] before
    every character and at the end. *)
Definition replace (s old new : pystr) : pystr :=
  match old with
  | [] => new ++ flat_map (fun c => c :: new) s
  | _ :: _ => replace_scan 0 s old new
  end.

(** Membership of a character in the argument of [strip(chars)]. *)
Definition char_in (chars : pystr) (c : ascii) : bool :=
  existsb (Ascii.eqb c) chars.

Fixpoint lstrip_with (p : ascii -> bool) (s : pystr) : pystr :=
  match s with
  | [] => []
  | c :: s' => if p c then lstrip_with p s' else s
  end.

Definition rstrip_with (p : ascii -> bool) (s : pystr) : pystr :=
  rev (lstrip_with p (rev s)).

Definition strip_with (p : ascii -> bool) (s : pystr) : pystr :=
  rstrip_with p (lstrip_with p s).

(** [s.strip(chars)]: drops from both ends every character that belongs to
    the set [chars]. *)
Definition strip_chars (s chars : pystr) : pystr := strip_with (char_in chars) s.

(** [str.isspace] on one character: TAB..CR, FS..US, space, NEL, NBSP. *)
Definition isspace (c : ascii) : bool :=
  let n := nat_of_ascii c in
  ((9 <=? n) && (n <=? 13)) || ((28 <=? n) && (n <=? 32))
  || (n =? 133) || (n =? 160).

(** [s.strip()] *)
Definition strip (s : pystr) : pystr := strip_with isspace s.

(** [sep.join(parts)] *)
Fixpoint join (sep : pystr) (parts : list pystr) : pystr :=
  match parts with
  | [] => []
  | [p] => p
  | p :: rest => p ++ sep ++ join sep rest
  end.

(** [a == b] on strings. *)
Definition pystr_eqb (a b : pystr) : bool :=
  if list_eq_dec ascii_dec a b then true else false.

(* ================================================================= *)
(** ** Query corrector *)

(** The schema mapping is a Python dict from table name to the list of its
    column names; [items()] walks it in insertion order, so it is kept as an
    association list in that order. *)
Definition schema := list (pystr * list pystr).

(** One guarded substitution of [validate_sql_query]:
    [if name.lower() in query.lower():
         corrected_query = corrected_query.replace(name.lower(), name)] *)
Definition correct_name (query : pystr) (corrected_query name : pystr) : pystr :=
  if contains (lower query) (lower name)
  then replace corrected_query (lower name) name
  else corrected_query.

(** The inner loop [for column in columns]. *)
Definition correct_columns (query : pystr) (corrected_query : pystr)
    (columns : list pystr) : pystr :=
  fold_left (correct_name query) columns corrected_query.

(** The body of the outer loop, for one [(table, columns)] item. *)
Definition correct_table (query : pystr) (corrected_query : pystr)
    (item : pystr * list pystr) : pystr :=
  let (table, columns) := item in
  correct_columns query (correct_name query corrected_query table) columns.

(** [validate_sql_query(query, schema_info)] *)
Definition validate_sql_query (query : pystr) (schema_info : schema) : pystr :=
  fold_left (correct_table query) schema_info query.

(** *** The two-phase algorithm of the specification

    The specification describes the corrector in other words: every table name
    first, then every column name of every table, each time replacing every
    case-insensitive occurrence.  It is written down here as the text has it,
    to be compared with [validate_sql_query]. *)

(** Replace every occurrence of [name], whatever its letter-casing, by
    [canonical]: the scan of [replace_scan] on the case-folded text. *)
Fixpoint replace_ci_scan (skip : nat) (s name canonical : pystr) : pystr :=
  match s with
  | [] => []
  | c :: s' =>
      match skip with
      | S k => replace_ci_scan k s' name canonical
      | O =>
          if startswith (lower s) (lower name)
          then canonical ++ replace_ci_scan (length name - 1) s' name canonical
          else c :: replace_ci_scan 0 s' name canonical
      end
  end.

Definition replace_ci (s name canonical : pystr) : pystr :=
  match name with
  | [] => s
  | _ :: _ => replace_ci_scan 0 s name canonical
  end.

Definition spec_correct_name (query : pystr) (corrected_query name : pystr)
    : pystr :=
  if contains (lower query) (lower name)
  then replace_ci corrected_query name name
  else corrected_query.

Definition two_phase_reference (query : pystr) (schema_info : schema) : pystr :=
  let after_tables :=
    fold_left (spec_correct_name query) (map fst schema_info) query in
  fold_left (spec_correct_name query) (concat (map snd schema_info))
    after_tables.

(** The names of a schema in the order the loops of [validate_sql_query]
    reach them: a table, its columns, the next table, its columns, ... *)
Definition schema_names (schema_info : schema) : list pystr :=
  flat_map (fun item => fst item :: snd item) schema_info.

(* ================================================================= *)
(** ** Prompt builder and response cleaning *)

Definition nl : pystr := ["010"%char].
Definition dquote : pystr := ["034"%char].

(** The f-string [prompt] of [get_gemini_response], line by line. *)
Definition role_statement : pystr :=
  py "You are an expert in converting English questions to SQL query.".

Definition backtick_constraint : pystr :=
  py "Ensure that the query does not start or end with backticks (```).".

Definition worked_example : pystr :=
  py "Example:" ++ nl
  ++ py "    Question: How many entries are in the students table?" ++ nl
  ++ py "    SQL command: SELECT COUNT(*) FROM students;".

Definition prompt (question schema_info : pystr) : pystr :=
  nl
  ++ py "    " ++ role_statement ++ nl
  ++ py "    The SQL database has the following tables and columns:" ++ nl
  ++ py "    " ++ nl
  ++ py "    " ++ schema_info ++ nl
  ++ py "    " ++ nl
  ++ py "    The SQL query should match the schema and should not include any invalid table or column names." ++ nl
  ++ py "    " ++ backtick_constraint ++ nl
  ++ py "    " ++ nl
  ++ py "    " ++ worked_example ++ nl
  ++ nl
  ++ py "    Now, for the given question: " ++ dquote ++ question ++ dquote
  ++ py ", please generate a valid SQL query." ++ nl
  ++ py "    ".

(** [response.text.strip("```").strip()] *)
Definition clean_response (text : pystr) : pystr :=
  strip (strip_chars text (py "```")).

(** [f"Table {table}: {', '.join(columns)}"] joined by newlines, as the
    submission handler renders the schema for the prompt. *)
Definition format_schema_info (items : list (pystr * list pystr)) : pystr :=
  join nl
    (map (fun item => py "Table " ++ fst item ++ py ": "
                      ++ join (py ", ") (snd item)) items).

(* ================================================================= *)
(** ** Effects: exceptions, the outside world and the rendered page *)

(** The exception classes the program meets.  Every one is a subclass of
    [Exception]; [SQLAlchemyError] is the class the schema inspector names. *)
Inductive exn_class : Type :=
  | Exception
  | SQLAlchemyError
  | Sqlite3Error
  | OSError
  | AttributeError
  | ValueError
  | MemoryError.

Definition exn_class_eqb (c d : exn_class) : bool :=
  match c, d with
  | Exception, Exception
  | SQLAlchemyError, SQLAlchemyError
  | Sqlite3Error, Sqlite3Error
  | OSError, OSError
  | AttributeError, AttributeError
  | ValueError, ValueError
  | MemoryError, MemoryError => true
  | _, _ => false
  end.

Definition issubclass (c d : exn_class) : bool :=
  match d with
  | Exception => true
  | _ => exn_class_eqb c d
  end.

(** An exception object: its class and [str(e)]. *)
Record exn : Type := Exn { class_of : exn_class; str_of : pystr }.

Definition isinstance (e : exn) (c : exn_class) : bool :=
  issubclass (class_of e) c.

Inductive result (A : Type) : Type :=
  | Ret (a : A)
  | Raise (e : exn).
Arguments Ret {A} a.
Arguments Raise {A} e.

(** What the libraries do is not in the source: it is an interface.  Each
    call may change the outside world (files, database, network) and may
    raise. *)
Record Env : Type := {
  World : Type;
  Row : Type;
  Conn : Type;
  Cursor : Type;
  Engine : Type;
  Inspector : Type;
  Column : Type;
  (* sqlite3 *)
  sqlite3_connect : pystr -> World -> result Conn * World;
  conn_cursor : Conn -> World -> result Cursor * World;
  cur_execute : Cursor -> pystr -> World -> result unit * World;
  cur_fetchall : Cursor -> World -> result (list Row) * World;
  conn_commit : Conn -> World -> result unit * World;
  conn_close : Conn -> World -> result unit * World;
  (* sqlalchemy *)
  create_engine : pystr -> World -> result Engine * World;
  inspect : Engine -> World -> result Inspector * World;
  get_table_names : Inspector -> World -> result (list pystr) * World;
  get_columns : Inspector -> pystr -> World -> result (list Column) * World;
  (* [column['name']] *)
  column_name : Column -> pystr;
  (* google.generativeai: [generate_content([prompt]).text] *)
  generate_content : pystr -> World -> result pystr * World;
  (* [open(path, "wb")] and [f.write(data)] *)
  write_file : pystr -> list ascii -> World -> result unit * World
}.

(** What the run has done so far that can be observed from outside. *)
Inductive event (E : Env) : Type :=
  | StError (msg : pystr)                     (* st.error *)
  | StSubheader (text : pystr)                (* st.subheader *)
  | StCode (text : pystr)                     (* st.code(..., language='sql') *)
  | StWrite (row : Row E)                     (* st.write *)
  | FileWrite (path : pystr) (data : list ascii)
  | GenerateContent (prompt : pystr)          (* the call to the service *)
  | SqlConnect (path : pystr)
  | SqlCursor
  | SqlExecute (sql : pystr)
  | SqlFetchall
  | SqlCommit
  | SqlClose
  | CreateEngine (url : pystr)
  | Inspect
  | GetTableNames
  | GetColumns (table : pystr).
Arguments StError {E} msg.
Arguments StSubheader {E} text.
Arguments StCode {E} text.
Arguments StWrite {E} row.
Arguments FileWrite {E} path data.
Arguments GenerateContent {E} prompt.
Arguments SqlConnect {E} path.
Arguments SqlExecute {E} sql.
Arguments SqlCommit {E}.
Arguments SqlClose {E}.
Arguments SqlCursor {E}.
Arguments SqlFetchall {E}.
Arguments CreateEngine {E} url.
Arguments Inspect {E}.
Arguments GetTableNames {E}.
Arguments GetColumns {E} table.

(** Events that reach the generative service, and events that write to the
    database file (the upload being stored, a statement being run or
    committed). *)
Definition is_network_call {E : Env} (ev : event E) : bool :=
  match ev with
  | GenerateContent _ => true
  | _ => false
  end.

Definition is_database_write {E : Env} (ev : event E) : bool :=
  match ev with
  | FileWrite _ _ | SqlExecute _ | SqlCommit => true
  | _ => false
  end.

(** The two shapes of what [read_sql_query] returns, and of what
    [get_schema_info_with_sqlalchemy] returns. *)
Inductive query_result (R : Type) : Type :=
  | Rows (rows : list R)
  | ErrorText (msg : pystr).
Arguments Rows {R} rows.
Arguments ErrorText {R} msg.

Inductive schema_result : Type :=
  | SchemaMapping (m : schema)
  | SchemaError (msg : pystr).

(** [d[key] = value] on an insertion-ordered dict. *)
Fixpoint dict_set (d : schema) (key : pystr) (value : list pystr) : schema :=
  match d with
  | [] => [(key, value)]
  | (k, v) :: d' =>
      if pystr_eqb k key then (k, value) :: d'
      else (k, v) :: dict_set d' key value
  end.

Section Pipeline.

Variable E : Env.

(** The state a computation threads: the outside world and the trace of
    events so far. *)
Definition run_state : Type := (World E * list (event E))%type.

Definition M (A : Type) : Type := run_state -> result A * run_state.

Definition ret {A : Type} (a : A) : M A := fun st => (Ret a, st).

Definition bind {A B : Type} (c : M A) (k : A -> M B) : M B :=
  fun st =>
    match c st with
    | (Ret a, st') => k a st'
    | (Raise e, st') => (Raise e, st')
    end.

Definition raise {A : Type} (e : exn) : M A := fun st => (Raise e, st).

(** [try: body  except cls as e: handler(e)] *)
Definition try_except {A : Type} (body : M A) (cls : exn_class)
    (handler : exn -> M A) : M A :=
  fun st =>
    match body st with
    | (Ret a, st') => (Ret a, st')
    | (Raise e, st') =>
        if isinstance e cls then handler e st' else (Raise e, st')
    end.

(** A call into a library: it is recorded, then the interface answers. *)
Definition call {A : Type} (ev : event E)
    (f : World E -> result A * World E) : M A :=
  fun st =>
    let (r, w') := f (fst st) in (r, (w', snd st ++ [ev])).

(** A call that only renders on the page. *)
Definition show (ev : event E) : M unit :=
  fun st => (Ret tt, (fst st, snd st ++ [ev])).

Local Notation "x <- c ;; k" := (bind c (fun x => k))
  (at level 61, c at next level, right associativity).
Local Notation "c ;;; k" := (bind c (fun _ => k))
  (at level 61, right associativity).

(** [for x in xs: body(x)] *)
Fixpoint for_each {A : Type} (xs : list A) (body : A -> M unit) : M unit :=
  match xs with
  | [] => ret tt
  | x :: xs' => body x ;;; for_each xs' body
  end.

(** [get_gemini_response(question, schema_info)] *)
Definition get_gemini_response (question schema_info : pystr) : M pystr :=
  let prompt := prompt question schema_info in
  text <- call (GenerateContent prompt) (generate_content E prompt) ;;
  let cleaned_response := clean_response text in
  ret cleaned_response.

(** The [try] block of [read_sql_query]. *)
Definition read_sql_query_body (sql db_file : pystr) : M (list (Row E)) :=
  conn <- call (SqlConnect db_file) (sqlite3_connect E db_file) ;;
  cur <- call SqlCursor (conn_cursor E conn) ;;
  call (SqlExecute sql) (cur_execute E cur sql) ;;;
  rows <- call SqlFetchall (cur_fetchall E cur) ;;
  call SqlCommit (conn_commit E conn) ;;;
  call SqlClose (conn_close E conn) ;;;
  ret rows.

(** [read_sql_query(sql, db_file)] *)
Definition read_sql_query (sql db_file : pystr) : M (query_result (Row E)) :=
  try_except
    (rows <- read_sql_query_body sql db_file ;; ret (Rows rows))
    Exception
    (fun e => ret (ErrorText (str_of e))).

(** The loop [for table in table_names] of the schema inspector, threading
    the dict [schema_info]. *)
Fixpoint collect_columns (inspector : Inspector E) (table_names : list pystr)
    (schema_info : schema) : M schema :=
  match table_names with
  | [] => ret schema_info
  | table :: rest =>
      columns <- call (GetColumns table) (get_columns E inspector table) ;;
      let column_names := map (column_name E) columns in
      collect_columns inspector rest (dict_set schema_info table column_names)
  end.

(** The [try] block of [get_schema_info_with_sqlalchemy]. *)
Definition get_schema_info_body (db_file : pystr) : M schema :=
  let schema_info := [] in
  let url := py "sqlite:///" ++ db_file in
  engine <- call (CreateEngine url) (create_engine E url) ;;
  inspector <- call Inspect (inspect E engine) ;;
  table_names <- call GetTableNames (get_table_names E inspector) ;;
  collect_columns inspector table_names schema_info.

(** [get_schema_info_with_sqlalchemy(db_file)] *)
Definition get_schema_info_with_sqlalchemy (db_file : pystr)
    : M schema_result :=
  try_except
    (m <- get_schema_info_body db_file ;; ret (SchemaMapping m))
    SQLAlchemyError
    (fun e => ret (SchemaError (str_of e))).

(** [schema_info.items()]: a [str] has no such attribute. *)
Definition items (schema_info : schema_result) : M schema :=
  match schema_info with
  | SchemaMapping m => ret m
  | SchemaError _ =>
      raise (Exn AttributeError (py "'str' object has no attribute 'items'"))
  end.

(** [validate_sql_query(response, schema_info)] in the handler: the loop
    header calls [schema_info.items()]. *)
Definition validate_sql_query_dyn (query : pystr)
    (schema_info : schema_result) : M pystr :=
  m <- items schema_info ;;
  ret (validate_sql_query query m).

Definition temp_database : pystr := py "temp_database.db".

(** The [try] block of the submission handler. *)
Definition process_submission (uploaded_file : list ascii) (question : pystr)
    : M unit :=
  call (FileWrite temp_database uploaded_file)
       (write_file E temp_database uploaded_file) ;;;
  schema_info <- get_schema_info_with_sqlalchemy temp_database ;;
  schema_items <- items schema_info ;;
  let formatted_schema_info := format_schema_info schema_items in
  response <- get_gemini_response question formatted_schema_info ;;
  show (StSubheader (py "Generated SQL Query:")) ;;;
  show (StCode response) ;;;
  corrected_query <- validate_sql_query_dyn response schema_info ;;
  show (StSubheader (py "Corrected SQL Query:")) ;;;
  show (StCode corrected_query) ;;;
  result <- read_sql_query corrected_query temp_database ;;
  show (StSubheader (py "Query Results:")) ;;;
  match result with
  | ErrorText msg => show (StError (py "Error: " ++ msg))
  | Rows rows => for_each rows (fun row => show (StWrite row))
  end.

(** The handler's [except Exception as e:] clause:
    [st.error(f"Error processing the query: {e}")] *)
Definition render_failure (e : exn) : M unit :=
  show (StError (py "Error processing the query: " ++ str_of e)).

(** The submission handler: [if uploaded_file and submit: ...].
    [uploaded_file] is [None] while nothing is uploaded. *)
Definition handle_submission
    (uploaded_file : option (list ascii)) (question : pystr) (submit : bool)
    : M unit :=
  match uploaded_file with
  | Some data =>
      if submit then
        if pystr_eqb (strip question) []
        then show (StError (py "Please enter a valid question."))
        else try_except (process_submission data question) Exception
               render_failure
      else ret tt
  | None => ret tt
  end.

End Pipeline.

(* ================================================================= *)
(** ** Vocabulary of the statements *)

(** [x] occurs in [s] at position [p]. *)
Definition occurs_at (s : pystr) (p : nat) (x : pystr) : Prop :=
  startswith (skipn p s) x = true.

(** [y] is [x] or an upper-case variant of [x]. *)
Definition upcase_of (x y : ascii) : Prop :=
  lower_char y = lower_char x /\ (y = x \/ lower_char y <> y).

(** Position [i] of [query] lies inside an occurrence of the all-lowercase
    spelling of one of [names] that is not itself all-lowercase. *)
Definition covered (names : list pystr) (query : pystr) (i : nat) : Prop :=
  exists name p,
    In name names /\ lower name <> name
    /\ p <= i < p + length name /\ occurs_at query p (lower name).

(** No non-empty end of [name] is a beginning of [name.lower()]: two
    occurrences of the lowercase spelling that overlap cannot turn into one
    corrected occurrence followed by a lowercase one. *)
Definition self_overlap_free (name : pystr) : bool :=
  forallb (fun p => negb (startswith (lower name) (skipn p name)))
          (seq 0 (length name)).

(** The first character of [s] exists and is not in the set [p] that a
    [strip] removes. *)
Definition first_kept (p : ascii -> bool) (s : pystr) : Prop :=
  match s with
  | [] => False
  | c :: _ => p c = false
  end.

(** The character a position holds; the null character past the end. *)
Definition char_at (s : pystr) (i : nat) : ascii := nth i s "000"%char.

(* ================================================================= *)
(** ** A small engine to run the pipeline on

    An instance of the interface, used to evaluate the pipeline on concrete
    inputs: a database is a list of tables, each with its column names and
    its rows of integers; the only statement it runs is
    [SELECT * FROM <table>;].  The service always gives the same answer, and
    schema inspection can be made to fail with a chosen exception. *)

Record toy_world : Type := {
  files : list (pystr * list ascii);
  tables : list (pystr * (list pystr * list (list nat)));
  pending : list (list nat)
}.

Definition toy_select_all (w : toy_world) (sql : pystr)
    : option (list (list nat)) :=
  option_map (fun t => snd (snd t))
    (find (fun t => pystr_eqb sql (py "SELECT * FROM " ++ fst t ++ py ";"))
          (tables w)).

Definition toy_execute (sql : pystr) (w : toy_world)
    : result unit * toy_world :=
  match toy_select_all w sql with
  | Some rows =>
      (Ret tt, {| files := files w; tables := tables w; pending := rows |})
  | None => (Raise (Exn Sqlite3Error (py "unsupported statement")), w)
  end.

Definition toy_columns (table : pystr) (w : toy_world)
    : result (list pystr) * toy_world :=
  match find (fun t => pystr_eqb table (fst t)) (tables w) with
  | Some t => (Ret (fst (snd t)), w)
  | None => (Raise (Exn SQLAlchemyError (py "no such table")), w)
  end.

Definition toy_env (inspect_failure : option exn) (answer : pystr) : Env := {|
  World := toy_world;
  Row := list nat;
  Conn := unit;
  Cursor := unit;
  Engine := unit;
  Inspector := unit;
  Column := pystr;
  sqlite3_connect := fun _ w => (Ret tt, w);
  conn_cursor := fun _ w => (Ret tt, w);
  cur_execute := fun _ sql w => toy_execute sql w;
  cur_fetchall := fun _ w => (Ret (pending w), w);
  conn_commit := fun _ w => (Ret tt, w);
  conn_close := fun _ w => (Ret tt, w);
  create_engine := fun _ w => (Ret tt, w);
  inspect := fun _ w =>
    match inspect_failure with
    | Some e => (Raise e, w)
    | None => (Ret tt, w)
    end;
  get_table_names := fun _ w => (Ret (map fst (tables w)), w);
  get_columns := fun _ table w => toy_columns table w;
  column_name := fun c => c;
  generate_content := fun _ w => (Ret answer, w);
  write_file := fun path data w =>
    (Ret tt, {| files := (path, data) :: files w;
                tables := tables w; pending := pending w |})
|}.

(** The database with the single table [t(a INT)] and no rows. *)
Definition empty_table_db : toy_world := {|
  files := [];
  tables := [(py "t", ([py "a"], []))];
  pending := []
|}.

(** The inputs of the worked examples. *)
Definition students_schema : schema := [(py "students", [py "id"; py "name"])].

Definition fenced_answer : pystr :=
  py "```sql" ++ nl ++ py "SELECT 1;" ++ nl ++ py "```".

(* ================================================================= *)
(** ** Vocabulary of the further properties *)

(** A lowercase letter that [str.lower] produces from a capital: a-z and the
    Latin-1 small letters U+00E0..U+00FE except the division sign U+00F7. *)
Definition is_small_letter (c : ascii) : bool :=
  let n := nat_of_ascii c in
  ((97 <=? n) && (n <=? 122))
  || ((224 <=? n) && (n <=? 254) && negb (n =? 247)).

(** The stretch of [n] characters at [p] and the stretch of [n'] characters
    at [p'] share a position. *)
Definition overlaps (p n p' n' : nat) : bool :=
  (p' <? p + n) && (p <? p' + n').

(** The occurrence of [name.lower()] at position [p] of [query] stands
    alone: no all-lowercase spelling of a schema name that the corrector
    rewrites overlaps it, but for [name] itself at [p]. *)
Definition isolated (names : list pystr) (query : pystr) (p : nat)
    (name : pystr) : bool :=
  forallb
    (fun other =>
       pystr_eqb (lower other) other
       || forallb
            (fun p' =>
               negb (startswith (skipn p' query) (lower other)
                     && overlaps p (length name) p' (length other))
               || (pystr_eqb other name && (p' =? p)))
            (seq 0 (length query)))
    names.

(** The sqlite3 calls of [read_sql_query], in the order of the source. *)
Definition sqlite_calls {E : Env} (sql db_file : pystr) : list (event E) :=
  [SqlConnect db_file; SqlCursor; SqlExecute sql; SqlFetchall; SqlCommit;
   SqlClose].

Definition is_sql_execute {E : Env} (ev : event E) : bool :=
  match ev with
  | SqlExecute _ => true
  | _ => false
  end.

Definition is_file_write {E : Env} (ev : event E) : bool :=
  match ev with
  | FileWrite _ _ => true
  | _ => false
  end.

(** The calls a schema inspection makes. *)
Definition is_inspection {E : Env} (ev : event E) : bool :=
  match ev with
  | CreateEngine _ | Inspect | GetTableNames | GetColumns _ => true
  | _ => false
  end.

(** What the handler renders for the value of [read_sql_query]. *)
Definition rendered_result {E : Env} (result : query_result (Row E))
    : list (event E) :=
  match result with
  | ErrorText msg => [StError (py "Error: " ++ msg)]
  | Rows rows => map StWrite rows
  end.

(** Whatever the state it starts in, the computation [c] only appends to
    the trace, and what it appends satisfies [bound]. *)
Definition emits {E : Env} {A : Type} (c : M E A)
    (bound : list (event E) -> Prop) : Prop :=
  forall st, exists evs, snd (snd (c st)) = snd st ++ evs /\ bound evs.

(** At most [n] of the events satisfy [f]. *)
Definition at_most {E : Env} (f : event E -> bool) (n : nat)
    (evs : list (event E)) : Prop :=
  length (filter f evs) <= n.

(** What Streamlit renders. *)
Definition is_display {E : Env} (ev : event E) : bool :=
  match ev with
  | StError _ | StSubheader _ | StCode _ | StWrite _ => true
  | _ => false
  end.

(** The database with the table [t(a INT)] holding the rows 1 and 2. *)
Definition two_rows_db : toy_world := {|
  files := [];
  tables := [(py "t", ([py "a"], [[1]; [2]]))];
  pending := []
|}.

(** The engine whose service answers with a fenced statement on [t], the
    database [two_rows_db] once the upload is stored and once the statement
    has run, and the trace up to the end of the schema inspection. *)
Definition listing_env : Env := toy_env None (py "```SELECT * FROM t;```").

Definition two_rows_stored : toy_world := {|
  files := [(temp_database, py "SQLite format 3")];
  tables := tables two_rows_db;
  pending := []
|}.

Definition two_rows_fetched : toy_world := {|
  files := [(temp_database, py "SQLite format 3")];
  tables := tables two_rows_db;
  pending := [[1]; [2]]
|}.

Definition listing_trace : list (event listing_env) :=
  [FileWrite temp_database (py "SQLite format 3");
   CreateEngine (py "sqlite:///temp_database.db"); Inspect; GetTableNames;
   GetColumns (py "t")].

(** How the six sqlite3 calls of the executor go, read off the interface
    alone: they are made in the order of the source, each in the world the
    call before it left, up to the first one that raises.  The run ends with
    the exception of that call or with the rows [fetchall] gave, after [n]
    calls, in the world [w]. *)
Inductive sqlite_run (E : Env) (sql db_file : pystr) (w0 : World E)
    : result (list (Row E)) -> nat -> World E -> Prop :=
  | connect_raises (e : exn) (w1 : World E) :
      sqlite3_connect E db_file w0 = (Raise e, w1) ->
      sqlite_run E sql db_file w0 (Raise e) 1 w1
  | cursor_raises (conn : Conn E) (w1 : World E) (e : exn) (w2 : World E) :
      sqlite3_connect E db_file w0 = (Ret conn, w1) ->
      conn_cursor E conn w1 = (Raise e, w2) ->
      sqlite_run E sql db_file w0 (Raise e) 2 w2
  | execute_raises (conn : Conn E) (w1 : World E) (cur : Cursor E)
      (w2 : World E) (e : exn) (w3 : World E) :
      sqlite3_connect E db_file w0 = (Ret conn, w1) ->
      conn_cursor E conn w1 = (Ret cur, w2) ->
      cur_execute E cur sql w2 = (Raise e, w3) ->
      sqlite_run E sql db_file w0 (Raise e) 3 w3
  | fetchall_raises (conn : Conn E) (w1 : World E) (cur : Cursor E)
      (w2 w3 : World E) (e : exn) (w4 : World E) :
      sqlite3_connect E db_file w0 = (Ret conn, w1) ->
      conn_cursor E conn w1 = (Ret cur, w2) ->
      cur_execute E cur sql w2 = (Ret tt, w3) ->
      cur_fetchall E cur w3 = (Raise e, w4) ->
      sqlite_run E sql db_file w0 (Raise e) 4 w4
  | commit_raises (conn : Conn E) (w1 : World E) (cur : Cursor E)
      (w2 w3 : World E) (rows : list (Row E)) (w4 : World E) (e : exn)
      (w5 : World E) :
      sqlite3_connect E db_file w0 = (Ret conn, w1) ->
      conn_cursor E conn w1 = (Ret cur, w2) ->
      cur_execute E cur sql w2 = (Ret tt, w3) ->
      cur_fetchall E cur w3 = (Ret rows, w4) ->
      conn_commit E conn w4 = (Raise e, w5) ->
      sqlite_run E sql db_file w0 (Raise e) 5 w5
  | close_raises (conn : Conn E) (w1 : World E) (cur : Cursor E)
      (w2 w3 : World E) (rows : list (Row E)) (w4 w5 : World E) (e : exn)
      (w6 : World E) :
      sqlite3_connect E db_file w0 = (Ret conn, w1) ->
      conn_cursor E conn w1 = (Ret cur, w2) ->
      cur_execute E cur sql w2 = (Ret tt, w3) ->
      cur_fetchall E cur w3 = (Ret rows, w4) ->
      conn_commit E conn w4 = (Ret tt, w5) ->
      conn_close E conn w5 = (Raise e, w6) ->
      sqlite_run E sql db_file w0 (Raise e) 6 w6
  | all_calls_succeed (conn : Conn E) (w1 : World E) (cur : Cursor E)
      (w2 w3 : World E) (rows : list (Row E)) (w4 w5 w6 : World E) :
      sqlite3_connect E db_file w0 = (Ret conn, w1) ->
      conn_cursor E conn w1 = (Ret cur, w2) ->
      cur_execute E cur sql w2 = (Ret tt, w3) ->
      cur_fetchall E cur w3 = (Ret rows, w4) ->
      conn_commit E conn w4 = (Ret tt, w5) ->
      conn_close E conn w5 = (Ret tt, w6) ->
      sqlite_run E sql db_file w0 (Ret rows) 6 w6.

(** What the executor is to return for the end of such a run: the rows, or
    the string of the exception. *)
Definition returned_value {R : Type} (outcome : result (list R))
    : query_result R :=
  match outcome with
  | Ret rows => Rows rows
  | Raise e => ErrorText (str_of e)
  end.

(** How the loop over the table names goes at the interface: [get_columns]
    is called for each table in turn, each time in the world the call before
    it left, up to the first call that raises.  The run ends with that
    exception or with the tables and their column names, in order. *)
Inductive columns_run (E : Env) (inspector : Inspector E)
    : list pystr -> World E -> result (list (pystr * list pystr)) ->
      World E -> Prop :=
  | no_table_left (w : World E) :
      columns_run E inspector [] w (Ret []) w
  | get_columns_raises (table : pystr) (rest : list pystr) (w : World E)
      (e : exn) (w' : World E) :
      get_columns E inspector table w = (Raise e, w') ->
      columns_run E inspector (table :: rest) w (Raise e) w'
  | get_columns_returns (table : pystr) (rest : list pystr) (w : World E)
      (columns : list (Column E)) (w' : World E)
      (r : result (list (pystr * list pystr))) (w'' : World E) :
      get_columns E inspector table w = (Ret columns, w') ->
      columns_run E inspector rest w' r w'' ->
      columns_run E inspector (table :: rest) w
        match r with
        | Ret l => Ret ((table, map (column_name E) columns) :: l)
        | Raise e => Raise e
        end
        w''.

(** How a schema inspection goes at the interface: [create_engine],
    [inspect], [get_table_names], then the loop, up to the first call that
    raises. *)
Inductive inspection_run (E : Env) (db_file : pystr) (w0 : World E)
    : result (list (pystr * list pystr)) -> World E -> Prop :=
  | create_engine_raises (e : exn) (w1 : World E) :
      create_engine E (py "sqlite:///" ++ db_file) w0 = (Raise e, w1) ->
      inspection_run E db_file w0 (Raise e) w1
  | inspect_raises (engine : Engine E) (w1 : World E) (e : exn)
      (w2 : World E) :
      create_engine E (py "sqlite:///" ++ db_file) w0 = (Ret engine, w1) ->
      inspect E engine w1 = (Raise e, w2) ->
      inspection_run E db_file w0 (Raise e) w2
  | get_table_names_raises (engine : Engine E) (w1 : World E)
      (inspector : Inspector E) (w2 : World E) (e : exn) (w3 : World E) :
      create_engine E (py "sqlite:///" ++ db_file) w0 = (Ret engine, w1) ->
      inspect E engine w1 = (Ret inspector, w2) ->
      get_table_names E inspector w2 = (Raise e, w3) ->
      inspection_run E db_file w0 (Raise e) w3
  | tables_listed (engine : Engine E) (w1 : World E)
      (inspector : Inspector E) (w2 : World E) (table_names : list pystr)
      (w3 : World E) (r : result (list (pystr * list pystr)))
      (w4 : World E) :
      create_engine E (py "sqlite:///" ++ db_file) w0 = (Ret engine, w1) ->
      inspect E engine w1 = (Ret inspector, w2) ->
      get_table_names E inspector w2 = (Ret table_names, w3) ->
      columns_run E inspector table_names w3 r w4 ->
      inspection_run E db_file w0 r w4.

(** The dict obtained by assigning the listed tables one after the other. *)
Definition assigned (l : list (pystr * list pystr)) (d : schema) : schema :=
  fold_left (fun d item => dict_set d (fst item) (snd item)) l d.

(** What the inspector is to return for the end of such a run. *)
Definition inspector_value (r : result (list (pystr * list pystr)))
    : result schema_result :=
  match r with
  | Ret l => Ret (SchemaMapping (assigned l []))
  | Raise e =>
      if isinstance e SQLAlchemyError
      then Ret (SchemaError (str_of e))
      else Raise e
  end.

(** *** The order of the names, whatever is done with a name

    The two loops of [validate_sql_query] with the statement run for a name
    left open: [step] stands for it, [init] for what it starts from. *)
Definition corrector_loops {A : Type} (step : A -> pystr -> A)
    (schema_info : schema) (init : A) : A :=
  fold_left
    (fun acc item => fold_left step (snd item) (step acc (fst item)))
    schema_info init.

(** The order of the specification's two phases: every table name, then
    every column name of every table. *)
Definition tables_first_names (schema_info : schema) : list pystr :=
  map fst schema_info ++ concat (map snd schema_info).

(* ================================================================= *)
(** ** The corrector on any [str]

    A Python [str] is a sequence of code points of any size.  [in] and
    [replace] are written out on such sequences as above; [str.lower], whose
    table depends on the Unicode version of the interpreter, is a parameter
    [str_lower] of the corrector.  Below U+0100 it is the function [lower]
    above; beyond, it can change the number of code points. *)

Definition str := list N.

Fixpoint str_startswith (s p : str) {struct p} : bool :=
  match p, s with
  | [], _ => true
  | _ :: _, [] => false
  | a :: p', b :: s' => N.eqb a b && str_startswith s' p'
  end.

Fixpoint str_contains (s sub : str) : bool :=
  str_startswith s sub
  || match s with
     | [] => false
     | _ :: s' => str_contains s' sub
     end.

Fixpoint str_replace_scan (skip : nat) (s old new : str) : str :=
  match s with
  | [] => []
  | c :: s' =>
      match skip with
      | S k => str_replace_scan k s' old new
      | O =>
          if str_startswith s old
          then new ++ str_replace_scan (length old - 1) s' old new
          else c :: str_replace_scan 0 s' old new
      end
  end.

Definition str_replace (s old new : str) : str :=
  match old with
  | [] => new ++ flat_map (fun c => c :: new) s
  | _ :: _ => str_replace_scan 0 s old new
  end.

Definition str_schema := list (str * list str).

Definition str_correct_name (str_lower : str -> str)
    (query corrected_query name : str) : str :=
  if str_contains (str_lower query) (str_lower name)
  then str_replace corrected_query (str_lower name) name
  else corrected_query.

(** [validate_sql_query(query, schema_info)] on any [str]. *)
Definition validate_sql_query_str (str_lower : str -> str)
    (query : str) (schema_info : str_schema) : str :=
  fold_left
    (fun (corrected_query : str) (item : str * list str) =>
       let (table, columns) := item in
       fold_left (str_correct_name str_lower query) columns
         (str_correct_name str_lower query corrected_query table))
    schema_info query.

Definition str_schema_names (schema_info : str_schema) : list str :=
  flat_map (fun item => fst item :: snd item) schema_info.

(** A text of code points below 256 as a [str]. *)
Definition to_str (s : pystr) : str := map N_of_ascii s.

Definition to_str_schema (schema_info : schema) : str_schema :=
  map (fun item => (to_str (fst item), map to_str (snd item))) schema_info.

(** What is known of [str.lower] below U+0100: there it is [lower]. *)
Definition lower_below_256 (str_lower : str -> str) : Prop :=
  forall s : pystr, str_lower (to_str s) = to_str (lower s).

(** A function that is [str.lower] below U+0100 and leaves every other code
    point as it is. *)
Definition latin1_lower (s : str) : str :=
  map (fun n => if N.ltb n 256 then N_of_ascii (lower_char (ascii_of_N n))
                else n) s.


(** [x] occurs in the text [s] at position [p]. *)
Definition str_occurs_at (s : str) (p : nat) (x : str) : Prop :=
  str_startswith (skipn p s) x = true.

(** A code point below U+0100 that is a lowercase letter having a capital
    there: what [is_small_letter] says of a character. *)
Definition is_small_letter_code (n : N) : bool :=
  N.ltb n 256 && is_small_letter (ascii_of_N n).

(** A function that is [str.lower] below U+0100 and on U+0130, the capital I
    with a dot above, which Python lowers to the two code points U+0069
    U+0307; every other code point is left as it is. *)
Definition lower_with_U0130 (s : str) : str :=
  flat_map (fun n => if N.eqb n 304 then [105%N; 775%N] else latin1_lower [n])
           s.

(* ================================================================= *)
(** * Properties *)

(** ** Characters *)

Lemma lower_char_idem (c : ascii) : lower_char (lower_char c) = lower_char c.
Proof. destruct c as [[] [] [] [] [] [] [] []]; reflexivity. Qed.

Lemma lower_idem (s : pystr) : lower (lower s) = lower s.
Proof.
  unfold lower. rewrite map_map. apply map_ext. intro c. apply lower_char_idem.
Qed.

Lemma lower_app (a b : pystr) : lower (a ++ b) = lower a ++ lower b.
Proof. apply map_app. Qed.

Lemma lower_length (s : pystr) : length (lower s) = length s.
Proof. apply length_map. Qed.

(** ** Prefixes and occurrences *)

Lemma startswith_app (p r : pystr) : startswith (p ++ r) p = true.
Proof.
  induction p as [|a p IH]; simpl; [reflexivity|].
  rewrite Ascii.eqb_refl. exact IH.
Qed.

Lemma startswith_split (s p : pystr) :
  startswith s p = true -> s = p ++ skipn (length p) s.
Proof.
  revert s. induction p as [|a p IH]; intros s H; simpl in *.
  - reflexivity.
  - destruct s as [|b s]; [discriminate|].
    apply andb_true_iff in H. destruct H as [Hab Hs].
    apply Ascii.eqb_eq in Hab. subst b. simpl. f_equal. apply IH, Hs.
Qed.

Lemma startswith_iff (s p : pystr) :
  startswith s p = true <-> exists r, s = p ++ r.
Proof.
  split.
  - intro H. eexists. apply startswith_split, H.
  - intros [r ->]. apply startswith_app.
Qed.

Lemma contains_cons (c : ascii) (s sub : pystr) :
  contains (c :: s) sub = startswith (c :: s) sub || contains s sub.
Proof. reflexivity. Qed.

Lemma contains_startswith (s sub : pystr) :
  startswith s sub = true -> contains s sub = true.
Proof. intro H. destruct s; simpl; rewrite H; reflexivity. Qed.

Lemma contains_iff (s sub : pystr) :
  contains s sub = true <-> exists a b, s = a ++ sub ++ b.
Proof.
  split.
  - induction s as [|c s IH]; simpl; intro H.
    + rewrite orb_false_r in H. apply startswith_iff in H.
      destruct H as [r Hr]. exists [], r. exact Hr.
    + apply orb_true_iff in H. destruct H as [H|H].
      * apply startswith_iff in H. destruct H as [r Hr]. exists [], r. exact Hr.
      * destruct (IH H) as (a & b & ->). exists (c :: a), b. reflexivity.
  - intros (a & b & ->). induction a as [|c a IH].
    + apply contains_startswith, (startswith_app sub b).
    + simpl. rewrite IH. apply orb_true_r.
Qed.

Lemma contains_app_r (a s sub : pystr) :
  contains s sub = true -> contains (a ++ s) sub = true.
Proof.
  intro H. apply contains_iff in H. destruct H as (x & y & ->).
  apply contains_iff. exists (a ++ x), y. now rewrite <- app_assoc.
Qed.

(** ** [replace] *)

Lemma replace_scan_skip (k : nat) (s old new : pystr) :
  replace_scan k s old new = replace_scan 0 (skipn k s) old new.
Proof.
  revert k. induction s as [|c s IH]; intros [|k]; try reflexivity.
  simpl skipn. simpl replace_scan at 1. apply IH.
Qed.

Lemma replace_scan_match (a : ascii) (old r new : pystr) :
  replace_scan 0 ((a :: old) ++ r) (a :: old) new
  = new ++ replace_scan 0 r (a :: old) new.
Proof.
  change ((a :: old) ++ r) with (a :: (old ++ r)).
  cbn [replace_scan]. change (a :: old ++ r) with ((a :: old) ++ r).
  rewrite startswith_app. f_equal.
  rewrite replace_scan_skip. f_equal.
  simpl. rewrite Nat.sub_0_r.
  rewrite skipn_app, skipn_all, Nat.sub_diag. reflexivity.
Qed.

Lemma replace_scan_copy (c : ascii) (s old new : pystr) :
  startswith (c :: s) old = false ->
  replace_scan 0 (c :: s) old new = c :: replace_scan 0 s old new.
Proof. intro H. cbn [replace_scan]. rewrite H. reflexivity. Qed.

(** The scan read as a case analysis on the text: it is empty, or it starts
    with [old], or its first character is copied. *)
Lemma replace_scan_ind (a : ascii) (old new : pystr) (P : pystr -> pystr -> Prop) :
  P [] [] ->
  (forall r, P r (replace_scan 0 r (a :: old) new) ->
             P ((a :: old) ++ r) (new ++ replace_scan 0 r (a :: old) new)) ->
  (forall c s, startswith (c :: s) (a :: old) = false ->
               P s (replace_scan 0 s (a :: old) new) ->
               P (c :: s) (c :: replace_scan 0 s (a :: old) new)) ->
  forall s, P s (replace_scan 0 s (a :: old) new).
Proof.
  intros Hnil Hmatch Hcopy s.
  remember (length s) as n eqn:Hn. revert s Hn.
  induction n as [n IH] using lt_wf_ind. intros s Hn.
  destruct s as [|c s]; [exact Hnil|].
  destruct (startswith (c :: s) (a :: old)) eqn:Hsw.
  - pose proof (startswith_split _ _ Hsw) as Hs.
    rewrite Hs. rewrite replace_scan_match. apply Hmatch.
    apply (IH (length (skipn (length (a :: old)) (c :: s)))); [|reflexivity].
    subst n. rewrite length_skipn. simpl. lia.
  - rewrite replace_scan_copy by exact Hsw. apply Hcopy; [exact Hsw|].
    apply (IH (length s)); [subst n; simpl; lia | reflexivity].
Qed.

Lemma replace_nil_nil (s : pystr) : replace s [] [] = s.
Proof.
  unfold replace. simpl. induction s as [|c s IH]; simpl; [reflexivity|].
  now rewrite IH.
Qed.

Lemma replace_same (s x : pystr) : replace s x x = s.
Proof.
  destruct x as [|a x]; [apply replace_nil_nil|].
  unfold replace. apply (replace_scan_ind a x (a :: x) (fun s r => r = s)).
  - reflexivity.
  - intros r ->. reflexivity.
  - intros c s0 _ ->. reflexivity.
Qed.

Lemma replace_absent (s old new : pystr) :
  contains s old = false -> replace s old new = s.
Proof.
  destruct old as [|a old].
  - intro H. exfalso. destruct s; simpl in H; discriminate.
  - unfold replace. revert s.
    apply (replace_scan_ind a old new
             (fun s r => contains s (a :: old) = false -> r = s)).
    + reflexivity.
    + intros r _ H. exfalso.
      assert (contains ((a :: old) ++ r) (a :: old) = true) as Ht.
      { apply contains_iff. exists [], r. reflexivity. }
      congruence.
    + intros c s Hsw IH H. rewrite contains_cons in H.
      apply orb_false_iff in H. destruct H as [_ H]. now rewrite IH.
Qed.

(** ** Letter-case of the corrected text *)

Lemma upcase_of_refl (x : ascii) : upcase_of x x.
Proof. split; [reflexivity | now left]. Qed.

Lemma upcase_of_trans (x y z : ascii) :
  upcase_of x y -> upcase_of y z -> upcase_of x z.
Proof.
  intros [Hxy Hy] [Hyz Hz]. split; [congruence|].
  destruct Hz as [-> | Hz]; [exact Hy | now right].
Qed.

Lemma upcase_of_lower (c : ascii) : upcase_of (lower_char c) c.
Proof.
  split; [symmetry; apply lower_char_idem|].
  destruct (ascii_dec (lower_char c) c) as [Heq | Hne]; [left | right]; congruence.
Qed.

Create HintDb recase.
#[local] Hint Resolve upcase_of_refl upcase_of_lower : recase.

Lemma Forall2_upcase_refl (s : pystr) : Forall2 upcase_of s s.
Proof. induction s; constructor; auto with recase. Qed.

Lemma Forall2_upcase_trans (a b c : pystr) :
  Forall2 upcase_of a b -> Forall2 upcase_of b c -> Forall2 upcase_of a c.
Proof.
  intro Hab. revert c. induction Hab as [|x y a b Hxy Hab IH]; intros c Hbc.
  - inversion Hbc. constructor.
  - inversion Hbc as [|y' z b' c' Hyz Hbc' E1 E2]; subst.
    constructor; [eapply upcase_of_trans; eassumption | apply IH, Hbc'].
Qed.

Lemma Forall2_upcase_lower (t : pystr) : Forall2 upcase_of (lower t) t.
Proof. induction t; simpl; constructor; auto with recase. Qed.

Lemma Forall2_upcase_lower_eq (a b : pystr) :
  Forall2 upcase_of a b -> lower b = lower a.
Proof.
  induction 1 as [|x y a b [Hxy _] _ IH]; simpl; [reflexivity|].
  now rewrite Hxy, IH.
Qed.

Lemma Forall2_upcase_skipn (a b : pystr) (p : nat) :
  Forall2 upcase_of a b -> Forall2 upcase_of (skipn p a) (skipn p b).
Proof.
  intro H. revert p. induction H as [|x y a b Hxy Hab IH]; intros [|p]; simpl;
    try constructor; auto.
Qed.

(** An occurrence of an all-lowercase text in a recased text was already
    there before the recasing. *)
Lemma startswith_before_upcase (a b t : pystr) :
  Forall2 upcase_of a b ->
  startswith b (lower t) = true -> startswith a (lower t) = true.
Proof.
  intro H. revert t. induction H as [|x y a b Hxy Hab IH]; intros [|c t] Hb;
    simpl in *; try reflexivity; try discriminate.
  apply andb_true_iff in Hb. destruct Hb as [Hc Hb].
  apply Ascii.eqb_eq in Hc. subst y.
  destruct Hxy as [_ [Hx | Hx]].
  - subst x. rewrite Ascii.eqb_refl. simpl. apply IH, Hb.
  - exfalso. apply Hx. apply lower_char_idem.
Qed.

Lemma contains_before_upcase (a b t : pystr) :
  Forall2 upcase_of a b ->
  contains b (lower t) = true -> contains a (lower t) = true.
Proof.
  induction 1 as [|x y a b Hxy Hab IH]; intro Hb.
  - exact Hb.
  - rewrite contains_cons in Hb. apply orb_true_iff in Hb.
    rewrite contains_cons. apply orb_true_iff. destruct Hb as [Hb | Hb].
    + left. eapply startswith_before_upcase; [|exact Hb]. now constructor.
    + right. apply IH, Hb.
Qed.

(** [replace] of the lowercase spelling by the name only recases. *)
Lemma replace_upcase (s t : pystr) :
  Forall2 upcase_of s (replace s (lower t) t).
Proof.
  destruct t as [|a t].
  - simpl lower. rewrite replace_nil_nil. apply Forall2_upcase_refl.
  - unfold replace. simpl lower.
    apply (replace_scan_ind (lower_char a) (lower t) (a :: t)
             (fun s r => Forall2 upcase_of s r)).
    + constructor.
    + intros r Hr. apply Forall2_app; [|exact Hr].
      apply (Forall2_upcase_lower (a :: t)).
    + intros c s0 _ Hs. constructor; [apply upcase_of_refl | exact Hs].
Qed.

Lemma correct_name_upcase (query cur name : pystr) :
  Forall2 upcase_of cur (correct_name query cur name).
Proof.
  unfold correct_name. destruct (contains (lower query) (lower name)).
  - apply replace_upcase.
  - apply Forall2_upcase_refl.
Qed.

Lemma fold_correct_name_upcase (query : pystr) (names : list pystr) (cur : pystr) :
  Forall2 upcase_of cur (fold_left (correct_name query) names cur).
Proof.
  revert cur. induction names as [|t names IH]; intro cur; simpl.
  - apply Forall2_upcase_refl.
  - eapply Forall2_upcase_trans; [apply correct_name_upcase | apply IH].
Qed.

(** The nested loops of [validate_sql_query] visit [schema_names] in order. *)
Lemma validate_sql_query_flat (query : pystr) (schema_info : schema) :
  validate_sql_query query schema_info
  = fold_left (correct_name query) (schema_names schema_info) query.
Proof.
  unfold validate_sql_query, schema_names.
  generalize query at 2 4 as cur.
  induction schema_info as [|[table columns] rest IH]; intro cur; simpl.
  - reflexivity.
  - rewrite fold_left_app. simpl. apply IH.
Qed.

(** ** Where the corrected text differs from the query *)

Lemma char_at_app_r (a b : pystr) (i : nat) :
  length a <= i -> char_at (a ++ b) i = char_at b (i - length a).
Proof. intro H. unfold char_at. now apply app_nth2. Qed.

Lemma occurs_at_app (a s x : pystr) (p : nat) :
  occurs_at s p x -> occurs_at (a ++ s) (length a + p) x.
Proof.
  unfold occurs_at. intro H.
  rewrite skipn_app. rewrite skipn_all2 by lia.
  replace (length a + p - length a) with p by lia. exact H.
Qed.

(** A character that [replace] changes lies inside an occurrence of [old]. *)
Lemma replace_changes_inside (s t : pystr) (i : nat) :
  char_at (replace s (lower t) t) i <> char_at s i ->
  exists p, p <= i < p + length t /\ occurs_at s p (lower t).
Proof.
  destruct t as [|a t].
  - simpl lower. rewrite replace_nil_nil. intro H. now contradiction H.
  - unfold replace. simpl lower. revert i.
    apply (replace_scan_ind (lower_char a) (lower t) (a :: t)
             (fun s r => forall i, char_at r i <> char_at s i ->
                exists p, p <= i < p + length (a :: t)
                          /\ occurs_at s p (lower_char a :: lower t))).
    + intros i H. now contradiction H.
    + intros r IH i H.
      assert (length (lower_char a :: lower t) = length (a :: t)) as Hlen
        by apply (lower_length (a :: t)).
      destruct (Nat.lt_ge_cases i (length (a :: t))) as [Hi | Hi].
      * exists 0. split; [lia|].
        apply (startswith_app (lower_char a :: lower t) r).
      * rewrite char_at_app_r in H by exact Hi.
        rewrite char_at_app_r in H by (rewrite Hlen; exact Hi).
        rewrite Hlen in H. destruct (IH _ H) as (p & Hp & Hocc).
        exists (length (lower_char a :: lower t) + p). split; [lia|].
        now apply occurs_at_app.
    + intros c s0 _ IH [|i] H.
      * now contradiction H.
      * destruct (IH i H) as (p & Hp & Hocc).
        exists (S p). split; [lia | exact Hocc].
Qed.

Lemma occurs_at_before_upcase (a b t : pystr) (p : nat) :
  Forall2 upcase_of a b -> occurs_at b p (lower t) -> occurs_at a p (lower t).
Proof.
  unfold occurs_at. intros H Hb.
  eapply startswith_before_upcase; [|exact Hb]. now apply Forall2_upcase_skipn.
Qed.

Lemma correct_name_lowercase (query cur name : pystr) :
  lower name = name -> correct_name query cur name = cur.
Proof.
  intro H. unfold correct_name. rewrite H.
  destruct (contains (lower query) name); [apply replace_same | reflexivity].
Qed.

Lemma fold_changes_covered (query : pystr) (all : list pystr) :
  forall (names : list pystr) (cur : pystr),
    incl names all ->
    Forall2 upcase_of query cur ->
    (forall i, char_at cur i <> char_at query i -> covered all query i) ->
    forall i,
      char_at (fold_left (correct_name query) names cur) i <> char_at query i ->
      covered all query i.
Proof.
  induction names as [|t names IH]; intros cur Hincl Hup Hcur i Hi.
  - exact (Hcur i Hi).
  - simpl in Hi. apply (IH (correct_name query cur t)); auto.
    + intros x Hx. apply Hincl. now right.
    + eapply Forall2_upcase_trans; [exact Hup | apply correct_name_upcase].
    + clear i Hi. intros i Hi.
      destruct (list_eq_dec ascii_dec (lower t) t) as [Hlow | Hlow].
      { rewrite correct_name_lowercase in Hi by exact Hlow. auto. }
      destruct (ascii_dec (char_at cur i) (char_at query i)) as [Heq | Hne];
        [|auto].
      unfold correct_name in Hi.
      destruct (contains (lower query) (lower t)); [|now rewrite Heq in Hi].
      rewrite <- Heq in Hi.
      destruct (replace_changes_inside _ _ _ Hi) as (p & Hp & Hocc).
      exists t, p. repeat split; try lia; auto.
      * apply Hincl. now left.
      * eapply occurs_at_before_upcase; eassumption.
Qed.

Lemma validate_changes_covered (query : pystr) (schema_info : schema) (i : nat) :
  char_at (validate_sql_query query schema_info) i <> char_at query i ->
  covered (schema_names schema_info) query i.
Proof.
  rewrite validate_sql_query_flat.
  apply fold_changes_covered.
  - apply incl_refl.
  - apply Forall2_upcase_refl.
  - intros j Hj. now contradiction Hj.
Qed.

Lemma validate_upcase (query : pystr) (schema_info : schema) :
  Forall2 upcase_of query (validate_sql_query query schema_info).
Proof. rewrite validate_sql_query_flat. apply fold_correct_name_upcase. Qed.

Lemma validate_length (query : pystr) (schema_info : schema) :
  length (validate_sql_query query schema_info) = length query.
Proof. symmetry. eapply Forall2_length, validate_upcase. Qed.

Lemma validate_lower (query : pystr) (schema_info : schema) :
  lower (validate_sql_query query schema_info) = lower query.
Proof. apply Forall2_upcase_lower_eq, validate_upcase. Qed.

(** Two texts of one length that agree on a stretch have the same stretch. *)
Lemma firstn_skipn_ext (a b : pystr) (p n : nat) :
  length a = length b ->
  (forall i, p <= i < p + n -> char_at a i = char_at b i) ->
  firstn n (skipn p a) = firstn n (skipn p b).
Proof.
  revert b p n. induction a as [|x a IH]; intros [|y b] p n Hlen H;
    try discriminate.
  - reflexivity.
  - destruct p as [|p].
    + simpl skipn. destruct n as [|n]; [reflexivity|].
      simpl. f_equal.
      * apply (H 0). lia.
      * apply (IH b 0 n); [simpl in Hlen; lia|].
        intros i Hi. apply (H (S i)). lia.
    + simpl skipn. apply IH; [simpl in Hlen; lia|].
      intros i Hi. apply (H (S i)). lia.
Qed.

Lemma validate_keeps_uncovered (query : pystr) (schema_info : schema) (p n : nat) :
  (forall i, p <= i < p + n -> ~ covered (schema_names schema_info) query i) ->
  firstn n (skipn p (validate_sql_query query schema_info))
  = firstn n (skipn p query).
Proof.
  intro H. apply firstn_skipn_ext; [apply validate_length|].
  intros i Hi.
  destruct (ascii_dec (char_at (validate_sql_query query schema_info) i)
                      (char_at query i)) as [Heq | Hne]; [exact Heq|].
  exfalso. apply (H i Hi). now apply validate_changes_covered.
Qed.

Lemma startswith_firstn (s t : pystr) :
  startswith s t = true <-> firstn (length t) s = t.
Proof.
  split.
  - intro H. rewrite (startswith_split _ _ H).
    rewrite firstn_app, Nat.sub_diag, firstn_all. simpl. apply app_nil_r.
  - intro H. apply startswith_iff. exists (skipn (length t) s).
    rewrite <- H at 1. symmetry. apply firstn_skipn.
Qed.

(** ** Lowercase spellings left behind by one pass *)

Lemma self_overlap_free_end (t pre u : pystr) :
  self_overlap_free t = true ->
  t = pre ++ u -> u <> [] -> startswith (lower t) u = false.
Proof.
  intros Hsof Ht Hu. unfold self_overlap_free in Hsof.
  rewrite forallb_forall in Hsof.
  specialize (Hsof (length pre)).
  assert (In (length pre) (seq 0 (length t))) as Hin.
  { apply in_seq. subst t. rewrite length_app.
    destruct u; [congruence | simpl; lia]. }
  apply Hsof in Hin. apply negb_true_iff in Hin.
  subst t. rewrite skipn_app, skipn_all, Nat.sub_diag in Hin. exact Hin.
Qed.

Lemma startswith_short (u r old : pystr) :
  startswith (u ++ r) old = true -> length u <= length old ->
  startswith old u = true.
Proof.
  revert old. induction u as [|c u IH]; intros old H Hlen.
  - reflexivity.
  - destruct old as [|a old]; [simpl in Hlen; lia|].
    simpl in *. apply andb_true_iff in H. destruct H as [Hac H].
    apply Ascii.eqb_eq in Hac. subst c. rewrite Ascii.eqb_refl. simpl.
    apply IH; [exact H | lia].
Qed.

Lemma contains_after_name (t r : pystr) :
  self_overlap_free t = true ->
  contains r (lower t) = false ->
  forall u pre, t = pre ++ u -> contains (u ++ r) (lower t) = false.
Proof.
  intros Hsof Hr. induction u as [|c u IH]; intros pre Ht.
  - exact Hr.
  - change ((c :: u) ++ r) with (c :: (u ++ r)). rewrite contains_cons.
    apply orb_false_iff. split.
    + destruct (startswith (c :: u ++ r) (lower t)) eqn:Hsw; [|reflexivity].
      apply (startswith_short (c :: u) r) in Hsw.
      * rewrite (self_overlap_free_end t pre (c :: u) Hsof Ht) in Hsw; [discriminate|].
        discriminate.
      * rewrite lower_length. subst t. rewrite length_app. lia.
    + apply (IH (pre ++ [c])). rewrite <- app_assoc. exact Ht.
Qed.

(** After [replace] no lowercase spelling of the name is left, when the name
    is free of self-overlap. *)
Lemma replace_removes (s t : pystr) :
  t <> [] -> self_overlap_free t = true ->
  contains (replace s (lower t) t) (lower t) = false.
Proof.
  intros Hne Hsof. destruct t as [|a t]; [congruence|]. clear Hne.
  unfold replace. simpl lower.
  apply (replace_scan_ind (lower_char a) (lower t) (a :: t)
           (fun s r => contains r (lower_char a :: lower t) = false)).
  - reflexivity.
  - intros r Hr. apply (contains_after_name (a :: t) _ Hsof Hr (a :: t) []).
    reflexivity.
  - intros c s0 Hsw Hr. rewrite contains_cons. apply orb_false_iff.
    split; [|exact Hr].
    destruct (startswith (c :: replace_scan 0 s0 (lower_char a :: lower t) (a :: t))
                (lower_char a :: lower t)) eqn:E; [|reflexivity].
    rewrite <- Hsw. symmetry.
    apply (startswith_before_upcase (c :: s0) _ (a :: t)) in E; [exact E|].
    constructor; [apply upcase_of_refl|].
    apply (replace_upcase s0 (a :: t)).
Qed.

Lemma fold_removes (query t : pystr) :
  contains (lower query) (lower t) = true ->
  t <> [] -> self_overlap_free t = true ->
  forall (names : list pystr) (cur : pystr),
    In t names ->
    contains (fold_left (correct_name query) names cur) (lower t) = false.
Proof.
  intros Hguard Hne Hsof. induction names as [|t0 names IH]; intros cur Hin.
  - destruct Hin.
  - simpl. destruct Hin as [-> | Hin]; [|apply IH, Hin].
    destruct (contains (fold_left (correct_name query) names
                          (correct_name query cur t)) (lower t)) eqn:E;
      [|reflexivity].
    apply (contains_before_upcase (correct_name query cur t)) in E;
      [|apply fold_correct_name_upcase].
    unfold correct_name in E. rewrite Hguard in E.
    rewrite replace_removes in E by assumption. discriminate.
Qed.

Lemma fold_left_fixed (A B : Type) (f : A -> B -> A) (l : list B) (x : A) :
  (forall y, In y l -> f x y = x) -> fold_left f l x = x.
Proof.
  induction l as [|y l IH]; intro H; simpl; [reflexivity|].
  rewrite (H y) by now left. apply IH. intros z Hz. apply H. now right.
Qed.

(* ================================================================= *)
(** ** The query corrector: claims *)

(** C1.  On the schema with table [students] and columns [id], [name], the
    corrector leaves the counting query on [STUDENTS] as it is: the
    upper-case table name passes the case-insensitive test of the guard, but
    [replace] looks for the lowercase spelling only, so the output does not
    name the table [students]. *)
Theorem students_uppercase_left_uncorrected :
  validate_sql_query (py "SELECT COUNT(*) FROM STUDENTS;") students_schema
  = py "SELECT COUNT(*) FROM STUDENTS;"
  /\ contains (lower (py "SELECT COUNT(*) FROM STUDENTS;"))
              (lower (py "students")) = true
  /\ validate_sql_query (py "SELECT COUNT(*) FROM STUDENTS;") students_schema
     <> py "SELECT COUNT(*) FROM students;".
Proof. repeat split. vm_compute. discriminate. Qed.

(** C10, as stated, fails: with the columns [USERNAME] and [Name], the
    spelling [Username] in the query is not all-lowercase, yet the output
    holds [UserName] in its place. *)
Lemma mixed_case_spelling_rewritten :
  In (py "USERNAME")
     (schema_names [(py "Users", [py "USERNAME"; py "Name"])])
  /\ lower (firstn 8 (skipn 7 (py "SELECT Username FROM Users")))
     = lower (py "USERNAME")
  /\ firstn 8 (skipn 7 (py "SELECT Username FROM Users"))
     <> lower (py "USERNAME")
  /\ firstn 8 (skipn 7
       (validate_sql_query (py "SELECT Username FROM Users")
          [(py "Users", [py "USERNAME"; py "Name"])]))
     <> firstn 8 (skipn 7 (py "SELECT Username FROM Users")).
Proof.
  repeat split.
  - simpl. auto.
  - vm_compute. discriminate.
  - vm_compute. discriminate.
Qed.

(* ================================================================= *)
(** ** Stripping *)

Lemma lstrip_with_all (p : ascii -> bool) (pre s : pystr) :
  forallb p pre = true -> lstrip_with p (pre ++ s) = lstrip_with p s.
Proof.
  induction pre as [|c pre IH]; simpl; intro H; [reflexivity|].
  apply andb_true_iff in H. destruct H as [Hc H]. rewrite Hc. auto.
Qed.

Lemma lstrip_with_kept (p : ascii -> bool) (s : pystr) :
  first_kept p s -> lstrip_with p s = s.
Proof. destruct s as [|c s]; simpl; [tauto|]. now intros ->. Qed.

Lemma first_kept_app (p : ascii -> bool) (s r : pystr) :
  first_kept p s -> first_kept p (s ++ r).
Proof. destruct s; simpl; tauto. Qed.

Lemma forallb_rev (p : ascii -> bool) (s : pystr) :
  forallb p s = true -> forallb p (rev s) = true.
Proof.
  rewrite !forallb_forall. intros H x Hx. apply H. now apply in_rev.
Qed.

Lemma strip_with_core (p : ascii -> bool) (pre mid post : pystr) :
  forallb p pre = true -> forallb p post = true ->
  first_kept p mid -> first_kept p (rev mid) ->
  strip_with p (pre ++ mid ++ post) = mid.
Proof.
  intros Hpre Hpost Hfirst Hlast. unfold strip_with, rstrip_with.
  rewrite lstrip_with_all by exact Hpre.
  rewrite (lstrip_with_kept p (mid ++ post)) by now apply first_kept_app.
  rewrite rev_app_distr.
  rewrite lstrip_with_all by now apply forallb_rev.
  rewrite (lstrip_with_kept p (rev mid)) by exact Hlast.
  apply rev_involutive.
Qed.

Lemma strip_blank (s : pystr) : forallb isspace s = true -> strip s = [].
Proof.
  intro H. unfold strip, strip_with, rstrip_with.
  rewrite <- (app_nil_r s) at 1. rewrite lstrip_with_all by exact H.
  reflexivity.
Qed.

Lemma isspace_not_backtick (c : ascii) :
  isspace c = true -> char_in (py "```") c = false.
Proof.
  destruct c as [[] [] [] [] [] [] [] []]; vm_compute; intro H;
    (reflexivity || discriminate H).
Qed.

Lemma first_kept_after_blank (ws body : pystr) :
  forallb isspace ws = true ->
  first_kept (fun c => isspace c || char_in (py "```") c) body ->
  first_kept (char_in (py "```")) (ws ++ body).
Proof.
  destruct ws as [|c ws]; simpl app; intros Hws Hbody.
  - destruct body as [|b body]; simpl in *; [tauto|].
    apply orb_false_iff in Hbody. tauto.
  - simpl in Hws. apply andb_true_iff in Hws.
    apply isspace_not_backtick. tauto.
Qed.

Lemma first_kept_weaken (body : pystr) :
  first_kept (fun c => isspace c || char_in (py "```") c) body ->
  first_kept isspace body.
Proof.
  destruct body as [|b body]; simpl; [tauto|].
  intro H. apply orb_false_iff in H. tauto.
Qed.

(** What [clean_response] leaves of a fenced answer. *)
Lemma clean_response_fenced (ticks1 ws1 body ws2 ticks2 : pystr) :
  forallb (char_in (py "```")) ticks1 = true ->
  forallb (char_in (py "```")) ticks2 = true ->
  forallb isspace ws1 = true ->
  forallb isspace ws2 = true ->
  first_kept (fun c => isspace c || char_in (py "```") c) body ->
  first_kept (fun c => isspace c || char_in (py "```") c) (rev body) ->
  clean_response (ticks1 ++ ws1 ++ body ++ ws2 ++ ticks2) = body.
Proof.
  intros Ht1 Ht2 Hw1 Hw2 Hfirst Hlast. unfold clean_response, strip_chars.
  replace (ticks1 ++ ws1 ++ body ++ ws2 ++ ticks2)
    with (ticks1 ++ (ws1 ++ body ++ ws2) ++ ticks2)
    by now rewrite <- !app_assoc.
  rewrite strip_with_core; try assumption.
  - unfold strip. apply strip_with_core; auto using first_kept_weaken.
  - rewrite app_assoc. apply first_kept_app.
    now apply first_kept_after_blank.
  - rewrite !rev_app_distr. rewrite <- app_assoc.
    rewrite app_assoc. apply first_kept_app.
    apply first_kept_after_blank; [now apply forallb_rev | exact Hlast].
Qed.

(* ================================================================= *)
(** ** The query generator: claim *)

Lemma get_gemini_response_run (E : Env) (question schema_info : pystr)
    (st : run_state E) :
  get_gemini_response E question schema_info st
  = match generate_content E (prompt question schema_info) (fst st) with
    | (Ret text, w) =>
        (Ret (clean_response text),
         (w, snd st ++ [GenerateContent (prompt question schema_info)]))
    | (Raise e, w) =>
        (Raise e, (w, snd st ++ [GenerateContent (prompt question schema_info)]))
    end.
Proof.
  unfold get_gemini_response, bind, call, ret.
  destruct (generate_content E (prompt question schema_info) (fst st))
    as [[text | e] w]; reflexivity.
Qed.

(** C4, as stated, fails: for the service response made of the fence with its
    [sql] tag, a newline, [SELECT 1;], a newline and the closing fence, the
    cleaned output keeps the tag: it is [sql], a newline and [SELECT 1;]. *)
Lemma fenced_answer_keeps_language_tag :
  fst (get_gemini_response (toy_env None fenced_answer)
         (py "How many?") (py "Table t: a") (empty_table_db, []))
  = Ret (py "sql" ++ nl ++ py "SELECT 1;")
  /\ fst (get_gemini_response (toy_env None fenced_answer)
            (py "How many?") (py "Table t: a") (empty_table_db, []))
     <> Ret (py "SELECT 1;").
Proof. split; [reflexivity | vm_compute; discriminate]. Qed.

(** C4, amended.  The cleaning step removes every leading and trailing
    backtick of the service's text response, whatever their number, and then
    the surrounding whitespace: a response made of backticks, whitespace, a
    body that neither starts nor ends with a backtick or a whitespace
    character, whitespace and backticks is cleaned to exactly that body.  A
    language tag after the opening fence belongs to the body. *)
Theorem generator_strips_backticks_then_whitespace
    (E : Env) (question schema_info : pystr) (st : run_state E)
    (ticks1 ws1 body ws2 ticks2 : pystr) (w : World E)
    (Hanswer : generate_content E (prompt question schema_info) (fst st)
               = (Ret (ticks1 ++ ws1 ++ body ++ ws2 ++ ticks2), w))
    (Hticks1 : forallb (char_in (py "```")) ticks1 = true)
    (Hticks2 : forallb (char_in (py "```")) ticks2 = true)
    (Hws1 : forallb isspace ws1 = true)
    (Hws2 : forallb isspace ws2 = true)
    (Hfirst : first_kept (fun c => isspace c || char_in (py "```") c) body)
    (Hlast : first_kept (fun c => isspace c || char_in (py "```") c)
               (rev body)) :
  fst (get_gemini_response E question schema_info st) = Ret body.
Proof.
  rewrite get_gemini_response_run, Hanswer. simpl.
  now rewrite clean_response_fenced.
Qed.

Lemma generator_strips_backticks_then_whitespace_witness :
  fst (get_gemini_response
         (toy_env None (py "```" ++ nl ++ py "SELECT 1;" ++ nl ++ py "```"))
         (py "How many?") (py "Table t: a") (empty_table_db, []))
  = Ret (py "SELECT 1;").
Proof.
  apply (generator_strips_backticks_then_whitespace
           (toy_env None (py "```" ++ nl ++ py "SELECT 1;" ++ nl ++ py "```"))
           (py "How many?") (py "Table t: a") (empty_table_db, [])
           (py "```") nl (py "SELECT 1;") nl (py "```") empty_table_db);
    reflexivity.
Defined.

(* ================================================================= *)
(** ** The presentation layer: claim *)

(** C5.  A submission whose question is empty or made of whitespace only is
    answered by the validation error alone: the handler returns normally, the
    outside world is untouched, and nothing it records is a call to the
    generative service or a write to the database file. *)
Theorem blank_question_rejected_without_effects
    (E : Env)
    (uploaded_file : option (list ascii)) (question : pystr) (submit : bool)
    (st : run_state E)
    (Hblank : forallb isspace question = true) :
  exists shown,
    handle_submission E uploaded_file question submit st
    = (Ret tt, (fst st, snd st ++ shown))
    /\ forallb (fun ev => negb (is_network_call ev)
                          && negb (is_database_write ev)) shown = true
    /\ (forall data, uploaded_file = Some data -> submit = true ->
          shown = [StError (py "Please enter a valid question.")]).
Proof.
  unfold handle_submission. rewrite (strip_blank question Hblank).
  destruct uploaded_file as [data|]; [destruct submit|].
  - exists [StError (py "Please enter a valid question.")].
    repeat split; auto.
  - exists []. rewrite app_nil_r. destruct st. repeat split; auto.
    intros; discriminate.
  - exists []. rewrite app_nil_r. destruct st. repeat split; auto.
    intros; discriminate.
Qed.

Lemma blank_question_rejected_without_effects_witness :
  handle_submission (toy_env None fenced_answer)
    (Some (py "SQLite format 3")) (py "   ") true (empty_table_db, [])
  = (Ret tt, (empty_table_db, [StError (py "Please enter a valid question.")])).
Proof.
  destruct (blank_question_rejected_without_effects
              (toy_env None fenced_answer)
              (Some (py "SQLite format 3")) (py "   ") true
              (empty_table_db, []) eq_refl)
    as (shown & Hrun & _ & Hshown).
  rewrite Hrun. rewrite (Hshown _ eq_refl eq_refl). reflexivity.
Defined.

(* ================================================================= *)
(** ** The query executor: claims *)

Lemma read_sql_query_run (E : Env) (sql db_file : pystr) (st : run_state E) :
  read_sql_query E sql db_file st
  = match read_sql_query_body E sql db_file st with
    | (Ret rows, st') => (Ret (Rows rows), st')
    | (Raise e, st') => (Ret (ErrorText (str_of e)), st')
    end.
Proof.
  unfold read_sql_query, try_except, bind, ret.
  destruct (read_sql_query_body E sql db_file st) as [[rows | e] st'];
    reflexivity.
Qed.

(** When every call of the executor succeeds, it returns what [fetchall]
    gave. *)
Lemma read_sql_query_rows (E : Env) (sql db_file : pystr) (st : run_state E)
    (conn : Conn E) (cur : Cursor E) (rows : list (Row E))
    (w1 w2 w3 w4 w5 w6 : World E) :
  sqlite3_connect E db_file (fst st) = (Ret conn, w1) ->
  conn_cursor E conn w1 = (Ret cur, w2) ->
  cur_execute E cur sql w2 = (Ret tt, w3) ->
  cur_fetchall E cur w3 = (Ret rows, w4) ->
  conn_commit E conn w4 = (Ret tt, w5) ->
  conn_close E conn w5 = (Ret tt, w6) ->
  fst (read_sql_query E sql db_file st) = Ret (Rows rows).
Proof.
  intros H1 H2 H3 H4 H5 H6. rewrite read_sql_query_run.
  unfold read_sql_query_body, bind, call, ret. simpl.
  rewrite H1. simpl. rewrite H2. simpl. rewrite H3. simpl.
  rewrite H4. simpl. rewrite H5. simpl. rewrite H6. reflexivity.
Qed.

(** C8.  On a database whose sqlite3 calls all succeed for
    [SELECT * FROM t;] and whose [fetchall] gives no row, as for the table
    [t(a INT)] without rows, the executor returns the empty sequence of
    rows, not an error string. *)
Theorem select_from_empty_table_gives_no_rows
    (E : Env) (db_file : pystr) (st : run_state E)
    (conn : Conn E) (cur : Cursor E) (w1 w2 w3 w4 w5 w6 : World E)
    (Hconnect : sqlite3_connect E db_file (fst st) = (Ret conn, w1))
    (Hcursor : conn_cursor E conn w1 = (Ret cur, w2))
    (Hexecute : cur_execute E cur (py "SELECT * FROM t;") w2 = (Ret tt, w3))
    (Hfetch : cur_fetchall E cur w3 = (Ret [], w4))
    (Hcommit : conn_commit E conn w4 = (Ret tt, w5))
    (Hclose : conn_close E conn w5 = (Ret tt, w6)) :
  fst (read_sql_query E (py "SELECT * FROM t;") db_file st) = Ret (Rows [])
  /\ forall msg,
       fst (read_sql_query E (py "SELECT * FROM t;") db_file st)
       <> Ret (ErrorText msg).
Proof.
  rewrite (read_sql_query_rows E (py "SELECT * FROM t;") db_file st
             conn cur [] w1 w2 w3 w4 w5 w6) by assumption.
  split; [reflexivity | discriminate].
Qed.

Lemma select_from_empty_table_gives_no_rows_witness :
  fst (read_sql_query (toy_env None fenced_answer) (py "SELECT * FROM t;")
         (py "temp_database.db") (empty_table_db, []))
  = Ret (Rows []).
Proof.
  apply (select_from_empty_table_gives_no_rows
           (toy_env None fenced_answer) (py "temp_database.db")
           (empty_table_db, []) tt tt
           empty_table_db empty_table_db empty_table_db
           empty_table_db empty_table_db empty_table_db);
    reflexivity.
Defined.

(* ================================================================= *)
(** ** The schema inspector: claim *)

Lemma get_schema_info_run (E : Env) (db_file : pystr) (st : run_state E) :
  get_schema_info_with_sqlalchemy E db_file st
  = match get_schema_info_body E db_file st with
    | (Ret m, st') => (Ret (SchemaMapping m), st')
    | (Raise e, st') =>
        if isinstance e SQLAlchemyError
        then (Ret (SchemaError (str_of e)), st')
        else (Raise e, st')
    end.
Proof.
  unfold get_schema_info_with_sqlalchemy, try_except, bind, ret.
  destruct (get_schema_info_body E db_file st) as [[m | e] st'];
    reflexivity.
Qed.

(** C7, as stated, fails: when the introspection raises an exception that is
    not a [SQLAlchemyError] (here a [MemoryError] while connecting), the
    inspector raises it past its boundary and returns no error string. *)
Lemma inspector_lets_other_exceptions_through :
  fst (get_schema_info_with_sqlalchemy
         (toy_env (Some (Exn MemoryError [])) fenced_answer)
         (py "temp_database.db") (empty_table_db, []))
  = Raise (Exn MemoryError [])
  /\ forall v,
       fst (get_schema_info_with_sqlalchemy
              (toy_env (Some (Exn MemoryError [])) fenced_answer)
              (py "temp_database.db") (empty_table_db, []))
       <> Ret v.
Proof. split; [reflexivity | intro v; vm_compute; discriminate]. Qed.

(* ================================================================= *)
(** ** The prompt builder: claim *)

Lemma contains_here (x r : pystr) : contains (x ++ r) x = true.
Proof. apply contains_startswith, startswith_app. Qed.

(** Drop the pieces of a concatenation that stand before the piece [x]. *)
Ltac peel_to x :=
  repeat match goal with
         | |- contains (?h ++ _) _ = true =>
             tryif constr_eq h x then fail else apply contains_app_r
         end.


(* ================================================================= *)
(** * Further properties of the code *)

(** ** The query corrector *)

Lemma pystr_eqb_eq (a b : pystr) : pystr_eqb a b = true <-> a = b.
Proof.
  unfold pystr_eqb. destruct (list_eq_dec ascii_dec a b); split; intro H;
    congruence.
Qed.

Lemma pystr_eqb_neq (a b : pystr) : a <> b -> pystr_eqb a b = false.
Proof.
  intro H. unfold pystr_eqb. destruct (list_eq_dec ascii_dec a b); congruence.
Qed.

Lemma Forall2_upcase_char_at (a b : pystr) (i : nat) :
  Forall2 upcase_of a b -> upcase_of (char_at a i) (char_at b i).
Proof.
  intro H. revert i. unfold char_at.
  induction H as [|x y a b Hxy Hab IH]; intros [|i]; simpl;
    auto with recase.
Qed.

Lemma startswith_char_at (s x : pystr) (i : nat) :
  startswith s x = true -> i < length x -> char_at s i = char_at x i.
Proof.
  intros H Hi. rewrite (startswith_split _ _ H). unfold char_at.
  now apply app_nth1.
Qed.

Lemma char_at_skipn (s : pystr) (p i : nat) :
  char_at (skipn p s) i = char_at s (p + i).
Proof.
  revert s. induction p as [|p IH]; intros s; [reflexivity|].
  destruct s as [|c s]; simpl.
  - unfold char_at. now destruct i.
  - apply IH.
Qed.

Lemma occurs_at_char (s x : pystr) (p i : nat) :
  occurs_at s p x -> p <= i < p + length x ->
  char_at s i = char_at x (i - p).
Proof.
  unfold occurs_at. intros H Hi.
  rewrite <- (startswith_char_at _ _ (i - p) H) by lia.
  rewrite char_at_skipn. f_equal. lia.
Qed.

Lemma char_at_lower (s : pystr) (i : nat) :
  i < length s -> char_at (lower s) i = lower_char (char_at s i).
Proof.
  intro H. unfold char_at, lower.
  rewrite (nth_indep _ "000"%char (lower_char "000"%char))
    by now rewrite length_map.
  apply map_nth.
Qed.

Lemma lower_char_changes (c : ascii) :
  lower_char c <> c -> is_upper c = true.
Proof. unfold lower_char. destruct (is_upper c); congruence. Qed.

Lemma lower_of_upper_is_small (c : ascii) :
  is_upper c = true -> is_small_letter (lower_char c) = true.
Proof.
  destruct c as [[] [] [] [] [] [] [] []]; vm_compute; intro H;
    (reflexivity || discriminate H).
Qed.

(** Positions where the corrected text differs hold a capital whose
    lowercase form the query has. *)
Lemma validate_capitalises (query : pystr) (schema_info : schema) :
  length (validate_sql_query query schema_info) = length query
  /\ forall i,
       char_at (validate_sql_query query schema_info) i = char_at query i
       \/ (is_upper (char_at (validate_sql_query query schema_info) i) = true
           /\ char_at query i
              = lower_char (char_at (validate_sql_query query schema_info) i)).
Proof.
  split; [apply validate_length|]. intro i.
  destruct (ascii_dec (char_at (validate_sql_query query schema_info) i)
                      (char_at query i)) as [Heq | Hne]; [now left | right].
  destruct (Forall2_upcase_char_at _ _ i (validate_upcase query schema_info))
    as [Hlow [Hsame | Hup]]; [congruence|].
  split; [now apply lower_char_changes|].
  destruct (validate_changes_covered _ _ _ Hne)
    as (name & p & _ & _ & Hi & Hocc).
  rewrite Hlow.
  rewrite (occurs_at_char _ _ _ _ Hocc) by (rewrite lower_length; exact Hi).
  rewrite char_at_lower by lia. symmetry. apply lower_char_idem.
Qed.

(** On a schema whose names are all written in lowercase, the corrector
    returns every query unchanged. *)
Theorem lowercase_schema_changes_nothing
    (query : pystr) (schema_info : schema)
    (Hnames : forall name, In name (schema_names schema_info) ->
                lower name = name) :
  validate_sql_query query schema_info = query.
Proof.
  rewrite validate_sql_query_flat. apply fold_left_fixed.
  intros name Hin. apply correct_name_lowercase. now apply Hnames.
Qed.

Lemma lowercase_schema_changes_nothing_witness :
  validate_sql_query (py "Select NAME, id From Students;") students_schema
  = py "Select NAME, id From Students;".
Proof.
  apply (lowercase_schema_changes_nothing
           (py "Select NAME, id From Students;") students_schema).
  simpl. intros name [<-|[<-|[<-|[]]]]; reflexivity.
Defined.

Lemma contains_lower (a b : pystr) :
  contains a b = true -> contains (lower a) (lower b) = true.
Proof.
  intro H. apply contains_iff in H. destruct H as (x & y & ->).
  apply contains_iff. exists (lower x), (lower y). now rewrite !lower_app.
Qed.

(** After one pass no all-lowercase spelling is left of any schema name that
    is free of self-overlap. *)
Theorem no_lowercase_spelling_left
    (query : pystr) (schema_info : schema) (name : pystr)
    (Hin : In name (schema_names schema_info))
    (Hne : name <> [])
    (Hfree : self_overlap_free name = true) :
  contains (validate_sql_query query schema_info) (lower name) = false.
Proof.
  destruct (contains (lower query) (lower name)) eqn:Hguard.
  - rewrite validate_sql_query_flat. now apply fold_removes.
  - destruct (contains (validate_sql_query query schema_info) (lower name))
      eqn:E; [|reflexivity].
    apply contains_lower in E.
    rewrite validate_lower, lower_idem in E. congruence.
Qed.

Lemma no_lowercase_spelling_left_witness :
  contains
    (validate_sql_query (py "select name from users where username = name")
       [(py "Users", [py "Name"; py "UserName"])])
    (lower (py "Name"))
  = false.
Proof.
  apply (no_lowercase_spelling_left
           (py "select name from users where username = name")
           [(py "Users", [py "Name"; py "UserName"])] (py "Name")).
  - simpl. auto.
  - discriminate.
  - reflexivity.
Defined.

(** *** An occurrence that stands alone is corrected *)

Lemma skipn_past (a s : pystr) (p : nat) :
  skipn (length a + p) (a ++ s) = skipn p s.
Proof.
  rewrite skipn_app, skipn_all2 by lia.
  now replace (length a + p - length a) with p by lia.
Qed.

(** [replace] rewrites an occurrence of [old] that no earlier occurrence
    runs into. *)
Lemma replace_at (s t : pystr) (p : nat) :
  t <> [] ->
  occurs_at s p (lower t) ->
  (forall p', p' < p -> p < p' + length t -> ~ occurs_at s p' (lower t)) ->
  occurs_at (replace s (lower t) t) p t.
Proof.
  intro Hne. destruct t as [|a t]; [congruence|]. clear Hne.
  unfold replace. simpl lower. revert p.
  assert (length (lower_char a :: lower t) = length (a :: t)) as Hlen
    by apply (lower_length (a :: t)).
  apply (replace_scan_ind (lower_char a) (lower t) (a :: t)
           (fun s r => forall p,
              occurs_at s p (lower_char a :: lower t) ->
              (forall p', p' < p -> p < p' + length (a :: t) ->
                          ~ occurs_at s p' (lower_char a :: lower t)) ->
              occurs_at r p (a :: t))).
  - intros p H _. unfold occurs_at in H. now destruct p.
  - intros r IH p Hocc Hfirst.
    destruct (Nat.lt_ge_cases p (length (a :: t))) as [Hp | Hp].
    + destruct p as [|p].
      * apply (startswith_app (a :: t)).
      * exfalso. apply (Hfirst 0); [lia | lia |].
        apply (startswith_app (lower_char a :: lower t) r).
    + replace p with (length (a :: t) + (p - length (a :: t))) by lia.
      unfold occurs_at. rewrite skipn_past. apply IH.
      * unfold occurs_at in *. rewrite <- Hlen.
        rewrite <- (skipn_past (lower_char a :: lower t) r).
        rewrite Hlen. now replace (length (a :: t) + (p - length (a :: t)))
          with p by lia.
      * intros p' Hp1 Hp2 Hocc'.
        apply (Hfirst (length (a :: t) + p')); [lia | lia |].
        rewrite <- Hlen. unfold occurs_at. now rewrite skipn_past.
  - intros c s0 Hsw IH p Hocc Hfirst. destruct p as [|p].
    + unfold occurs_at in Hocc. simpl skipn in Hocc. congruence.
    + apply (IH p Hocc). intros p' Hp1 Hp2 Hocc'.
      apply (Hfirst (S p')); [lia | lia | exact Hocc'].
Qed.

Lemma isolated_spec (names : list pystr) (query : pystr) (p : nat)
    (name : pystr) :
  isolated names query p name = true ->
  forall other p',
    In other names -> lower other <> other ->
    occurs_at query p' (lower other) ->
    p' < p + length name -> p < p' + length other ->
    other = name /\ p' = p.
Proof.
  intros Hiso other p' Hin Hlow Hocc Hp1 Hp2.
  unfold isolated in Hiso. rewrite forallb_forall in Hiso.
  specialize (Hiso other Hin). rewrite pystr_eqb_neq in Hiso by exact Hlow.
  simpl in Hiso. rewrite forallb_forall in Hiso.
  assert (p' < length query) as Hlt.
  { destruct (Nat.lt_ge_cases p' (length query)) as [H | H]; [exact H|].
    exfalso. unfold occurs_at in Hocc. rewrite skipn_all2 in Hocc by exact H.
    destruct other as [|c other]; [now apply Hlow | discriminate]. }
  specialize (Hiso p'). rewrite in_seq in Hiso.
  assert (0 <= p' < 0 + length query) as Hrange by lia.
  apply Hiso in Hrange. unfold occurs_at in Hocc. rewrite Hocc in Hrange.
  unfold overlaps in Hrange.
  rewrite (proj2 (Nat.ltb_lt _ _) Hp1), (proj2 (Nat.ltb_lt _ _) Hp2) in Hrange.
  simpl in Hrange. apply andb_true_iff in Hrange. destruct Hrange as [H1 H2].
  split; [now apply pystr_eqb_eq | now apply Nat.eqb_eq].
Qed.

Section Isolated.

Variables (query : pystr) (all : list pystr) (p : nat) (name : pystr).

Hypothesis Halone :
  forall other p',
    In other all -> lower other <> other ->
    occurs_at query p' (lower other) ->
    p' < p + length name -> p < p' + length other ->
    other = name /\ p' = p.

(** A character that one guarded substitution changes lies inside an
    occurrence of the lowercase spelling, in the text and in the query. *)
Lemma correct_name_change (cur other : pystr) (i : nat) :
  Forall2 upcase_of query cur ->
  char_at (correct_name query cur other) i <> char_at cur i ->
  lower other <> other
  /\ exists p', p' <= i < p' + length other
                /\ occurs_at cur p' (lower other)
                /\ occurs_at query p' (lower other).
Proof.
  intros Hup Hi.
  destruct (list_eq_dec ascii_dec (lower other) other) as [Hlow | Hlow].
  { rewrite correct_name_lowercase in Hi by exact Hlow. now contradiction Hi. }
  split; [exact Hlow|]. unfold correct_name in Hi.
  destruct (contains (lower query) (lower other)); [|now contradiction Hi].
  destruct (replace_changes_inside _ _ _ Hi) as (p' & Hp' & Hocc).
  exists p'. repeat split; try lia; [exact Hocc|].
  eapply occurs_at_before_upcase; eassumption.
Qed.

(** A step for a name that does not reach the stretch at [p] leaves the
    stretch as it is. *)
Lemma correct_name_keeps_stretch (cur other x : pystr) :
  length x = length name ->
  In other all ->
  Forall2 upcase_of query cur ->
  (other = name -> occurs_at cur p (lower name) -> False) ->
  occurs_at cur p x -> occurs_at (correct_name query cur other) p x.
Proof.
  intros Hlen Hin Hup Hnot Hocc. unfold occurs_at in *.
  apply startswith_firstn. apply startswith_firstn in Hocc.
  rewrite <- Hocc at 2. apply firstn_skipn_ext.
  - symmetry. eapply Forall2_length, correct_name_upcase.
  - intros i Hi.
    destruct (ascii_dec (char_at (correct_name query cur other) i)
                        (char_at cur i)) as [Heq | Hne]; [exact Heq|].
    exfalso.
    destruct (correct_name_change cur other i Hup Hne)
      as (Hlow & p' & Hp' & Hcur & Hq).
    destruct (Halone other p' Hin Hlow Hq) as [-> ->]; [lia | lia |].
    now apply Hnot.
Qed.

Lemma lower_differs_at (cur : pystr) :
  lower name <> name ->
  occurs_at cur p name -> occurs_at cur p (lower name) -> False.
Proof.
  intros Hlow H1 H2. apply Hlow. unfold occurs_at in *.
  apply startswith_firstn in H1. apply startswith_firstn in H2.
  rewrite lower_length in H2. congruence.
Qed.

Lemma fold_keeps_canonical (names : list pystr) :
  lower name <> name ->
  incl names all ->
  forall cur,
    Forall2 upcase_of query cur ->
    occurs_at cur p name ->
    occurs_at (fold_left (correct_name query) names cur) p name.
Proof.
  intros Hlow. induction names as [|other names IH]; intros Hincl cur Hup Hocc.
  - exact Hocc.
  - simpl. apply IH.
    + intros x Hx. apply Hincl. now right.
    + eapply Forall2_upcase_trans; [exact Hup | apply correct_name_upcase].
    + apply correct_name_keeps_stretch; auto.
      * apply Hincl. now left.
      * intros _ H. eapply lower_differs_at; eassumption.
Qed.

Lemma correct_name_rewrites_here (cur : pystr) :
  lower name <> name ->
  In name all ->
  Forall2 upcase_of query cur ->
  occurs_at cur p (lower name) ->
  occurs_at (correct_name query cur name) p name.
Proof.
  intros Hlow Hin Hup Hocc.
  assert (occurs_at query p (lower name)) as Hq
    by (eapply occurs_at_before_upcase; eassumption).
  unfold correct_name.
  assert (contains (lower query) (lower name) = true) as ->.
  { rewrite <- (lower_idem name). apply contains_lower.
    apply contains_iff. unfold occurs_at in Hq.
    apply startswith_iff in Hq. destruct Hq as [r Hr].
    exists (firstn p query), r. rewrite <- Hr. symmetry. apply firstn_skipn. }
  apply replace_at; [intros ->; now apply Hlow | exact Hocc |].
  intros p' Hp1 Hp2 Hocc'.
  assert (occurs_at query p' (lower name)) as Hq'
    by (eapply occurs_at_before_upcase; eassumption).
  destruct (Halone name p' Hin Hlow Hq') as [_ ->]; lia.
Qed.

Lemma fold_rewrites_here (names : list pystr) :
  lower name <> name ->
  incl names all ->
  In name names ->
  forall cur,
    Forall2 upcase_of query cur ->
    occurs_at cur p (lower name) ->
    occurs_at (fold_left (correct_name query) names cur) p name.
Proof.
  intros Hlow. induction names as [|other names IH];
    intros Hincl Hin cur Hup Hocc; [destruct Hin|].
  assert (incl names all) as Hincl' by (intros x Hx; apply Hincl; now right).
  assert (Forall2 upcase_of query (correct_name query cur other)) as Hup'
    by (eapply Forall2_upcase_trans; [exact Hup | apply correct_name_upcase]).
  simpl. destruct (list_eq_dec ascii_dec other name) as [-> | Hother].
  - apply fold_keeps_canonical; auto.
    apply correct_name_rewrites_here; auto.
  - destruct Hin as [Heq | Hin]; [congruence|].
    apply IH; auto.
    apply correct_name_keeps_stretch; auto.
    + apply lower_length.
    + apply Hincl. now left.
Qed.

End Isolated.

(** An all-lowercase spelling of a schema name that stands alone in the
    query (no all-lowercase spelling of a name the corrector rewrites
    overlaps it) is rewritten to the name in canonical case, at the same
    position. *)
Lemma validate_rewrites_isolated
    (query : pystr) (schema_info : schema) (name : pystr) (p : nat)
    (Hin : In name (schema_names schema_info))
    (Hocc : occurs_at query p (lower name))
    (Halone : isolated (schema_names schema_info) query p name = true) :
  occurs_at (validate_sql_query query schema_info) p name.
Proof.
  destruct (list_eq_dec ascii_dec (lower name) name) as [Hlow | Hlow].
  - rewrite Hlow in Hocc. unfold occurs_at in *.
    apply startswith_firstn. apply startswith_firstn in Hocc.
    rewrite validate_keeps_uncovered; [exact Hocc|].
    intros i Hi (other & p' & Hother & Hlow' & Hp' & Hocc').
    destruct (isolated_spec _ _ _ _ Halone other p' Hother Hlow' Hocc')
      as [-> _]; [lia | lia | now apply Hlow'].
  - rewrite validate_sql_query_flat.
    apply (fold_rewrites_here query (schema_names schema_info) p name
             (isolated_spec _ _ _ _ Halone)); auto.
    + apply incl_refl.
    + apply Forall2_upcase_refl.
Qed.

(** ** Response cleaning *)

Lemma lstrip_with_split (p : ascii -> bool) (s : pystr) :
  exists pre,
    s = pre ++ lstrip_with p s /\ forallb p pre = true
    /\ (lstrip_with p s = [] \/ first_kept p (lstrip_with p s)).
Proof.
  induction s as [|c s IH]; simpl.
  - exists []. auto.
  - destruct (p c) eqn:Hc.
    + destruct IH as (pre & Hs & Hpre & Hkept).
      exists (c :: pre). simpl. rewrite Hc, Hpre. repeat split; auto.
      now rewrite <- Hs.
    + exists []. simpl. auto.
Qed.

Lemma first_kept_not_all (p : ascii -> bool) (s r : pystr) :
  first_kept p s -> forallb p (s ++ r) = true -> False.
Proof.
  destruct s as [|c s]; simpl; [tauto|]. intros Hc H.
  apply andb_true_iff in H. destruct H as [H _]. congruence.
Qed.

Lemma first_kept_head (p : ascii -> bool) (s r : pystr) :
  s <> [] -> first_kept p (s ++ r) -> first_kept p s.
Proof. destruct s; simpl; [congruence | tauto]. Qed.

(** What [strip] leaves: a piece of the text between two runs of stripped
    characters, empty or with kept characters at both ends. *)
Lemma strip_with_split (p : ascii -> bool) (s : pystr) :
  exists pre post,
    s = pre ++ strip_with p s ++ post
    /\ forallb p pre = true /\ forallb p post = true
    /\ (strip_with p s = []
        \/ (first_kept p (strip_with p s)
            /\ first_kept p (rev (strip_with p s)))).
Proof.
  unfold strip_with, rstrip_with.
  destruct (lstrip_with_split p s) as (pre & Hs & Hpre & Hm).
  set (m := lstrip_with p s) in *.
  destruct (lstrip_with_split p (rev m)) as (post & Hr & Hpost & Hm').
  set (m' := lstrip_with p (rev m)) in *.
  assert (m = rev m' ++ rev post) as Hmid.
  { rewrite <- rev_app_distr, <- Hr. symmetry. apply rev_involutive. }
  exists pre, (rev post). repeat split.
  - rewrite <- Hmid. exact Hs.
  - exact Hpre.
  - now apply forallb_rev.
  - destruct Hm' as [Hnil | Hkept]; [left; now rewrite Hnil|].
    right. split; [|now rewrite rev_involutive].
    destruct Hm as [Hnil | Hfirst].
    + exfalso. rewrite Hnil in Hmid.
      destruct m'; [exact Hkept|]. simpl in Hmid.
      symmetry in Hmid. apply app_eq_nil in Hmid. destruct Hmid as [Hmid _].
      apply app_eq_nil in Hmid. destruct Hmid as [_ Hmid]. discriminate.
    + rewrite Hmid in Hfirst. apply first_kept_head in Hfirst; [exact Hfirst|].
      destruct m'; [destruct Hkept|]. simpl. intro H.
      apply app_eq_nil in H. destruct H as [_ H]. discriminate.
Qed.

(** The cleaned response is a piece of the service's text: only backticks
    and whitespace are dropped, and only at its two ends; what is left is
    empty or starts and ends with a character that is not whitespace. *)
Theorem clean_response_is_trimmed_piece (text : pystr) :
  (exists before after,
     text = before ++ clean_response text ++ after
     /\ forallb (fun c => char_in (py "```") c || isspace c) before = true
     /\ forallb (fun c => char_in (py "```") c || isspace c) after = true)
  /\ (clean_response text = []
      \/ (first_kept isspace (clean_response text)
          /\ first_kept isspace (rev (clean_response text)))).
Proof.
  unfold clean_response, strip_chars, strip.
  destruct (strip_with_split (char_in (py "```")) text)
    as (a1 & b1 & H1 & Ha1 & Hb1 & _).
  set (m := strip_with (char_in (py "```")) text) in *.
  destruct (strip_with_split isspace m) as (a2 & b2 & H2 & Ha2 & Hb2 & Hends).
  split; [|exact Hends].
  exists (a1 ++ a2), (b2 ++ b1). repeat split.
  - rewrite H1 at 1. rewrite H2 at 1. now rewrite <- !app_assoc.
  - rewrite forallb_app. apply andb_true_iff. split.
    + rewrite forallb_forall in *. intros c Hc. now rewrite Ha1.
    + rewrite forallb_forall in *. intros c Hc. rewrite (Ha2 c Hc).
      apply orb_true_r.
  - rewrite forallb_app. apply andb_true_iff. split.
    + rewrite forallb_forall in *. intros c Hc. rewrite (Hb2 c Hc).
      apply orb_true_r.
    + rewrite forallb_forall in *. intros c Hc. now rewrite Hb1.
Qed.

(** The backticks are stripped before the whitespace: when the response
    begins with whitespace, backticks that follow it are kept.  A response
    made of whitespace, a body, whitespace and backticks is cleaned to the
    body, leading backticks of the body included. *)
Theorem leading_whitespace_shields_backticks
    (ws body ws2 ticks2 : pystr)
    (Hws : forallb isspace ws = true)
    (Hne : ws <> [])
    (Hws2 : forallb isspace ws2 = true)
    (Hticks2 : forallb (char_in (py "```")) ticks2 = true)
    (Hfirst : first_kept isspace body)
    (Hlast : first_kept (fun c => isspace c || char_in (py "```") c)
               (rev body)) :
  clean_response (ws ++ body ++ ws2 ++ ticks2) = body.
Proof.
  unfold clean_response, strip_chars.
  replace (ws ++ body ++ ws2 ++ ticks2)
    with ([] ++ (ws ++ body ++ ws2) ++ ticks2)
    by (simpl; now rewrite <- !app_assoc).
  rewrite strip_with_core; auto.
  - unfold strip. apply strip_with_core; auto using first_kept_weaken.
  - destruct ws as [|c ws]; [congruence|]. simpl in *.
    apply andb_true_iff in Hws. apply isspace_not_backtick. tauto.
  - rewrite !rev_app_distr. rewrite <- app_assoc.
    rewrite app_assoc. apply first_kept_app.
    apply first_kept_after_blank; [now apply forallb_rev | exact Hlast].
Qed.

Lemma leading_whitespace_shields_backticks_witness :
  clean_response (nl ++ py "```sql" ++ nl ++ py "SELECT 1;" ++ nl ++ py "```")
  = py "```sql" ++ nl ++ py "SELECT 1;".
Proof.
  apply (leading_whitespace_shields_backticks
           nl (py "```sql" ++ nl ++ py "SELECT 1;") nl (py "```"));
    try reflexivity.
  discriminate.
Defined.

(** ** The schema listing in the prompt *)

Lemma contains_trans (a b c : pystr) :
  contains a b = true -> contains b c = true -> contains a c = true.
Proof.
  intros Hab Hbc. apply contains_iff in Hab. apply contains_iff in Hbc.
  destruct Hab as (x & y & ->). destruct Hbc as (u & v & ->).
  apply contains_iff. exists (x ++ u), (v ++ y). now rewrite <- !app_assoc.
Qed.

Lemma contains_refl (a : pystr) : contains a a = true.
Proof. apply contains_iff. exists [], []. simpl. now rewrite app_nil_r. Qed.

Lemma contains_join (sep : pystr) (parts : list pystr) (x : pystr) :
  In x parts -> contains (join sep parts) x = true.
Proof.
  induction parts as [|part rest IH]; intro Hin; [destruct Hin|].
  destruct rest as [|next rest].
  - destruct Hin as [-> | []]. apply contains_refl.
  - change (join sep (part :: next :: rest))
      with (part ++ sep ++ join sep (next :: rest)).
    destruct Hin as [-> | Hin].
    + apply contains_here.
    + apply contains_app_r, contains_app_r, IH, Hin.
Qed.

(** Every table of the schema mapping is listed in the prompt built from
    it, on a line of the form [Table T: c1, c2, ...], and so is each of its
    column names. *)
Theorem prompt_lists_every_table
    (question : pystr) (schema_items : schema)
    (table : pystr) (columns : list pystr)
    (Hin : In (table, columns) schema_items) :
  contains (prompt question (format_schema_info schema_items))
           (py "Table " ++ table ++ py ": " ++ join (py ", ") columns)
  = true
  /\ forall column, In column columns ->
       contains (prompt question (format_schema_info schema_items)) column
       = true.
Proof.
  assert (contains (prompt question (format_schema_info schema_items))
            (py "Table " ++ table ++ py ": " ++ join (py ", ") columns)
          = true) as Hline.
  { apply (contains_trans _ (format_schema_info schema_items)).
    - unfold prompt. peel_to (format_schema_info schema_items).
      apply contains_here.
    - unfold format_schema_info. apply contains_join.
      apply (in_map (fun item => py "Table " ++ fst item ++ py ": "
                                 ++ join (py ", ") (snd item))
                    schema_items (table, columns) Hin). }
  split; [exact Hline|]. intros column Hcol.
  apply (contains_trans _ _ _ Hline).
  apply contains_app_r, contains_app_r, contains_app_r.
  now apply contains_join.
Qed.

Lemma prompt_lists_every_table_witness :
  contains (prompt (py "How many students?")
              (format_schema_info students_schema))
           (py "Table students: id, name")
  = true.
Proof.
  apply (proj1 (prompt_lists_every_table (py "How many students?")
                  students_schema (py "students") [py "id"; py "name"]
                  (or_introl eq_refl))).
Defined.

(** ** The query executor: order of the calls *)

(** The trace of the executor is a beginning of [sqlite_calls]. *)
Lemma read_sql_query_trace
    (E : Env) (sql db_file : pystr) (st : run_state E) :
  exists n,
    1 <= n <= 6
    /\ snd (snd (read_sql_query E sql db_file st))
       = snd st ++ firstn n (sqlite_calls sql db_file)
    /\ (forall rows,
          fst (read_sql_query E sql db_file st) = Ret (Rows rows) -> n = 6)
    /\ (n < 6 ->
        exists msg, fst (read_sql_query E sql db_file st) = Ret (ErrorText msg)).
Proof.
  unfold read_sql_query, read_sql_query_body, try_except, bind, call, ret,
    sqlite_calls.
  simpl.
  destruct (sqlite3_connect E db_file (fst st)) as [[conn | e] w1]; simpl;
    [|exists 1; repeat split; try lia; try discriminate; eauto].
  destruct (conn_cursor E conn w1) as [[cur | e] w2]; simpl;
    [|exists 2; rewrite <- app_assoc; repeat split; try lia;
      try discriminate; eauto].
  destruct (cur_execute E cur sql w2) as [[[] | e] w3]; simpl;
    [|exists 3; rewrite <- !app_assoc; repeat split; try lia;
      try discriminate; eauto].
  destruct (cur_fetchall E cur w3) as [[rows | e] w4]; simpl;
    [|exists 4; rewrite <- !app_assoc; repeat split; try lia;
      try discriminate; eauto].
  destruct (conn_commit E conn w4) as [[[] | e] w5]; simpl;
    [|exists 5; rewrite <- !app_assoc; repeat split; try lia;
      try discriminate; eauto].
  destruct (conn_close E conn w5) as [[[] | e] w6]; simpl;
    exists 6; rewrite <- !app_assoc; repeat split; try lia;
    try discriminate; eauto.
Qed.

(** ** The schema inspector: the mapping it builds *)

Lemma dict_set_keys_present (d : schema) (key : pystr) (value : list pystr) :
  In key (map fst d) -> map fst (dict_set d key value) = map fst d.
Proof.
  induction d as [|[k v] d IH]; simpl; intro H; [destruct H|].
  destruct (pystr_eqb k key) eqn:Hk; [reflexivity|].
  simpl. f_equal. apply IH. destruct H as [H | H]; [|exact H].
  subst k. rewrite (proj2 (pystr_eqb_eq key key) eq_refl) in Hk. discriminate.
Qed.

Lemma dict_set_keys_absent (d : schema) (key : pystr) (value : list pystr) :
  ~ In key (map fst d) -> map fst (dict_set d key value) = map fst d ++ [key].
Proof.
  induction d as [|[k v] d IH]; simpl; intro H; [reflexivity|].
  destruct (pystr_eqb k key) eqn:Hk.
  - apply pystr_eqb_eq in Hk. tauto.
  - simpl. f_equal. apply IH. tauto.
Qed.

Lemma dict_set_items (d : schema) (key : pystr) (value : list pystr)
    (t : pystr) (cols : list pystr) :
  In (t, cols) (dict_set d key value) ->
  (t = key /\ cols = value) \/ In (t, cols) d.
Proof.
  induction d as [|[k v] d IH]; simpl; intro H.
  - destruct H as [H | []]. inversion H. auto.
  - destruct (pystr_eqb k key) eqn:Hk; simpl in H.
    + apply pystr_eqb_eq in Hk. subst k. destruct H as [H | H]; [|auto].
      inversion H. auto.
    + destruct H as [H | H]; [auto|]. destruct (IH H); auto.
Qed.

Lemma dict_set_NoDup (d : schema) (key : pystr) (value : list pystr) :
  NoDup (map fst d) -> NoDup (map fst (dict_set d key value)).
Proof.
  intro H. destruct (in_dec (list_eq_dec ascii_dec) key (map fst d)) as [Hin | Hin].
  - now rewrite dict_set_keys_present.
  - rewrite dict_set_keys_absent by exact Hin.
    apply NoDup_app; [exact H | constructor; [intros [] | constructor] |].
    intros x Hx [<- | []]. contradiction.
Qed.

Lemma dict_set_In_key (d : schema) (key : pystr) (value : list pystr)
    (t : pystr) :
  In t (map fst (dict_set d key value)) <-> In t (map fst d) \/ t = key.
Proof.
  destruct (in_dec (list_eq_dec ascii_dec) key (map fst d)) as [Hin | Hin].
  - rewrite dict_set_keys_present by exact Hin. split; [auto|].
    intros [H | ->]; assumption.
  - rewrite dict_set_keys_absent by exact Hin. rewrite in_app_iff. simpl.
    split; intros [H | H]; auto. destruct H as [<- | []]. auto.
Qed.

Lemma collect_columns_mapping (E : Env) (inspector : Inspector E) :
  forall (table_names : list pystr) (acc : schema) (st : run_state E)
         (m : schema) (st' : run_state E),
    collect_columns E inspector table_names acc st = (Ret m, st') ->
    (NoDup (map fst acc) -> NoDup (map fst m))
    /\ (forall t, In t (map fst m) <-> In t (map fst acc) \/ In t table_names)
    /\ (NoDup (map fst acc ++ table_names) ->
        map fst m = map fst acc ++ table_names)
    /\ (forall t cols, In (t, cols) m ->
          In (t, cols) acc
          \/ exists w w' columns,
               get_columns E inspector t w = (Ret columns, w')
               /\ cols = map (column_name E) columns).
Proof.
  induction table_names as [|table rest IH]; intros acc st m st' Hrun.
  - simpl in Hrun. unfold ret in Hrun. inversion Hrun; subst.
    repeat split; auto.
    + intros [H | []]. exact H.
    + intros _. now rewrite app_nil_r.
  - simpl in Hrun. unfold bind, call in Hrun.
    destruct (get_columns E inspector table (fst st))
      as [[columns | e] w] eqn:Hcols; [|discriminate].
    apply IH in Hrun. destruct Hrun as (Hnodup & Hkeys & Horder & Hitems).
    repeat split.
    + intro H. apply Hnodup. now apply dict_set_NoDup.
    + intro H. apply Hkeys in H. rewrite dict_set_In_key in H. simpl.
      intuition (subst; auto).
    + intro H. apply Hkeys. rewrite dict_set_In_key. simpl in H.
      intuition (subst; auto).
    + intro H.
      assert (~ In table (map fst acc)) as Hfresh.
      { intro Hin. apply NoDup_remove_2 in H. apply H.
        apply in_or_app. now left. }
      rewrite Horder; rewrite dict_set_keys_absent by exact Hfresh;
        rewrite <- app_assoc; [reflexivity | exact H].
    + intros t cols H. apply Hitems in H. destruct H as [H | H]; [|auto].
      apply dict_set_items in H. destruct H as [[-> ->] | H]; [|auto].
      right. exists (fst st), w, columns. auto.
Qed.

(** When the schema inspector returns a mapping, its keys are unique and
    are exactly the table names the engine listed (in the same order when
    these are distinct), and the columns recorded for a table are the
    ['name'] entries of what [get_columns] returned for that table. *)
Theorem inspector_mapping_mirrors_engine
    (E : Env) (db_file : pystr) (st st' : run_state E) (m : schema)
    (Hrun : get_schema_info_with_sqlalchemy E db_file st
            = (Ret (SchemaMapping m), st')) :
  exists engine inspector table_names w1 w2 w3,
    create_engine E (py "sqlite:///" ++ db_file) (fst st) = (Ret engine, w1)
    /\ inspect E engine w1 = (Ret inspector, w2)
    /\ get_table_names E inspector w2 = (Ret table_names, w3)
    /\ NoDup (map fst m)
    /\ (forall t, In t (map fst m) <-> In t table_names)
    /\ (NoDup table_names -> map fst m = table_names)
    /\ (forall t cols, In (t, cols) m ->
          exists w w' columns,
            get_columns E inspector t w = (Ret columns, w')
            /\ cols = map (column_name E) columns).
Proof.
  rewrite get_schema_info_run in Hrun.
  destruct (get_schema_info_body E db_file st) as [[m0 | e] s1] eqn:Hbody.
  2:{ revert Hrun.
      destruct (isinstance e SQLAlchemyError); intro H; simpl in H;
        discriminate H. }
  inversion Hrun; subst. clear Hrun.
  revert Hbody. unfold get_schema_info_body, bind, call.
  cbn [fst snd].
  destruct (create_engine E (py "sqlite:///" ++ db_file) (fst st))
    as [[engine | e] w1] eqn:H1; cbn [fst snd]; [|discriminate].
  destruct (inspect E engine w1) as [[inspector | e] w2] eqn:H2;
    cbn [fst snd]; [|discriminate].
  destruct (get_table_names E inspector w2) as [[table_names | e] w3] eqn:H3;
    cbn [fst snd]; [|discriminate].
  intro Hbody. apply collect_columns_mapping in Hbody.
  destruct Hbody as (Hnodup & Hkeys & Horder & Hitems).
  exists engine, inspector, table_names, w1, w2, w3.
  repeat split; auto.
  - apply Hnodup. constructor.
  - intro H. apply Hkeys in H. destruct H as [[] | H]. exact H.
  - intro H. apply Hkeys. now right.
  - intros t cols H. destruct (Hitems t cols H) as [[] | H']. exact H'.
Qed.

Lemma inspector_mapping_mirrors_engine_witness :
  NoDup (map fst [(py "t", [py "a"])]).
Proof.
  destruct (inspector_mapping_mirrors_engine
              (toy_env None fenced_answer) (py "temp_database.db")
              (empty_table_db, [])
              (empty_table_db,
               [CreateEngine (py "sqlite:///temp_database.db"); Inspect;
                GetTableNames; GetColumns (py "t")])
              [(py "t", [py "a"])] eq_refl)
    as (_ & _ & _ & _ & _ & _ & _ & _ & _ & H & _).
  exact H.
Defined.

(** ** The submission handler's processing chain *)

(** *** Counting the events of a run *)

Section Emits.

Variable E : Env.
Variable f : event E -> bool.

Lemma emits_weaken (A : Type) (c : M E A) (n n' : nat) :
  n <= n' -> emits c (at_most f n) -> emits c (at_most f n').
Proof.
  intros Hle Hc st. destruct (Hc st) as (evs & Htr & Hn).
  exists evs. split; [exact Htr|]. unfold at_most in *. lia.
Qed.

Lemma emits_ret (A : Type) (a : A) : emits (ret E a) (at_most f 0).
Proof.
  intro st. exists []. split; [now rewrite app_nil_r | unfold at_most; simpl; lia].
Qed.

Lemma emits_raise (A : Type) (e : exn) :
  emits (raise E (A := A) e) (at_most f 0).
Proof.
  intro st. exists []. split; [now rewrite app_nil_r | unfold at_most; simpl; lia].
Qed.

Lemma emits_call_any (A : Type) (ev : event E)
    (g : World E -> result A * World E) :
  emits (call E ev g) (at_most f 1).
Proof.
  intro st. exists [ev]. unfold call. destruct (g (fst st)) as [r w].
  split; [reflexivity|]. unfold at_most. simpl. destruct (f ev); simpl; lia.
Qed.

Lemma emits_call_quiet (A : Type) (ev : event E)
    (g : World E -> result A * World E) :
  f ev = false -> emits (call E ev g) (at_most f 0).
Proof.
  intros Hev st. exists [ev]. unfold call. destruct (g (fst st)) as [r w].
  split; [reflexivity|]. unfold at_most. simpl. rewrite Hev. simpl. lia.
Qed.

Lemma emits_show_quiet (ev : event E) :
  f ev = false -> emits (show E ev) (at_most f 0).
Proof.
  intros Hev st. exists [ev]. unfold show.
  split; [reflexivity|]. unfold at_most. simpl. rewrite Hev. simpl. lia.
Qed.

Lemma emits_bind (A B : Type) (c : M E A) (k : A -> M E B) (a b : nat) :
  emits c (at_most f a) ->
  (forall x, emits (k x) (at_most f b)) ->
  emits (bind E c k) (at_most f (a + b)).
Proof.
  intros Hc Hk st. unfold bind.
  destruct (Hc st) as (e1 & Htr1 & Hn1).
  destruct (c st) as [[x | e] st1]; simpl in Htr1.
  - destruct (Hk x st1) as (e2 & Htr2 & Hn2).
    exists (e1 ++ e2). split.
    + rewrite Htr2, Htr1. now rewrite app_assoc.
    + unfold at_most in *. rewrite filter_app, length_app. lia.
  - exists e1. split; [exact Htr1|]. unfold at_most in *. lia.
Qed.

Lemma emits_try_except (A : Type) (body : M E A) (cls : exn_class)
    (handler : exn -> M E A) (a b : nat) :
  emits body (at_most f a) ->
  (forall e, emits (handler e) (at_most f b)) ->
  emits (try_except E body cls handler) (at_most f (a + b)).
Proof.
  intros Hc Hk st. unfold try_except.
  destruct (Hc st) as (e1 & Htr1 & Hn1).
  destruct (body st) as [[x | e] st1]; simpl in Htr1.
  - exists e1. split; [exact Htr1|]. unfold at_most in *. lia.
  - destruct (isinstance e cls).
    + destruct (Hk e st1) as (e2 & Htr2 & Hn2).
      exists (e1 ++ e2). split.
      * rewrite Htr2, Htr1. now rewrite app_assoc.
      * unfold at_most in *. rewrite filter_app, length_app. lia.
    + exists e1. split; [exact Htr1|]. unfold at_most in *. lia.
Qed.

Lemma emits_for_each (A : Type) (xs : list A) (body : A -> M E unit) :
  (forall x, emits (body x) (at_most f 0)) ->
  emits (for_each E xs body) (at_most f 0).
Proof.
  intro Hbody. induction xs as [|x xs IH]; simpl.
  - apply emits_ret.
  - apply (emits_bind _ _ _ _ 0 0); [apply Hbody | intros _; exact IH].
Qed.

Lemma emits_collect_columns (inspector : Inspector E)
    (table_names : list pystr) (acc : schema) :
  (forall table, f (GetColumns table) = false) ->
  emits (collect_columns E inspector table_names acc) (at_most f 0).
Proof.
  intro Hquiet. revert acc.
  induction table_names as [|table rest IH]; intro acc; simpl.
  - apply emits_ret.
  - apply (emits_bind _ _ _ _ 0 0).
    + apply emits_call_quiet, Hquiet.
    + intro columns. apply IH.
Qed.

(** The schema inspector records inspection calls only. *)
Lemma emits_inspector (db_file : pystr) :
  (forall ev, is_inspection ev = true -> f ev = false) ->
  emits (get_schema_info_with_sqlalchemy E db_file) (at_most f 0).
Proof.
  intro Hquiet. unfold get_schema_info_with_sqlalchemy, get_schema_info_body.
  apply (emits_try_except _ _ _ _ 0 0).
  - apply (emits_bind _ _ _ _ 0 0); [|intro m; apply emits_ret].
    apply (emits_bind _ _ _ _ 0 0);
      [apply emits_call_quiet, Hquiet; reflexivity | intro engine].
    apply (emits_bind _ _ _ _ 0 0);
      [apply emits_call_quiet, Hquiet; reflexivity | intro inspector].
    apply (emits_bind _ _ _ _ 0 0);
      [apply emits_call_quiet, Hquiet; reflexivity | intro table_names].
    apply emits_collect_columns. intro table. apply Hquiet. reflexivity.
  - intro e. apply emits_ret.
Qed.

Lemma filter_firstn_length (A : Type) (g : A -> bool) (n : nat) (l : list A) :
  length (filter g (firstn n l)) <= length (filter g l).
Proof.
  revert n. induction l as [|x l IH]; intros [|n]; simpl; try lia.
  specialize (IH n). destruct (g x); simpl; lia.
Qed.

Lemma emits_read_sql_query (sql db_file : pystr) (n : nat) :
  length (filter f (sqlite_calls sql db_file)) <= n ->
  emits (read_sql_query E sql db_file) (at_most f n).
Proof.
  intros Hn st.
  destruct (read_sql_query_trace E sql db_file st) as (k & _ & Htr & _).
  exists (firstn k (sqlite_calls sql db_file)). split; [exact Htr|].
  unfold at_most. etransitivity; [apply filter_firstn_length | exact Hn].
Qed.

Lemma emits_get_gemini_response (question schema_info : pystr) :
  emits (get_gemini_response E question schema_info) (at_most f 1).
Proof.
  unfold get_gemini_response.
  apply (emits_bind _ _ _ _ 1 0);
    [apply emits_call_any | intro text; apply emits_ret].
Qed.

Lemma emits_items (schema_info : schema_result) :
  emits (items E schema_info) (at_most f 0).
Proof. destruct schema_info; [apply emits_ret | apply emits_raise]. Qed.

End Emits.

Lemma emits_call_bound (E : Env) (f : event E -> bool) (A : Type)
    (ev : event E) (g : World E -> result A * World E) (n : nat) :
  at_most f n [ev] -> emits (call E ev g) (at_most f n).
Proof.
  intros Hev st. exists [ev]. unfold call. destruct (g (fst st)) as [r w].
  split; [reflexivity | exact Hev].
Qed.

Lemma emits_bind_call_head (E : Env) (f : event E -> bool) (A B : Type)
    (ev : event E) (g : World E -> result A * World E) (k : A -> M E B)
    (nw n : nat) :
  at_most f nw [ev] ->
  (forall x, emits (k x) (at_most f n)) ->
  emits (bind E (call E ev g) k)
        (fun evs => hd_error evs = Some ev /\ at_most f (nw + n) evs).
Proof.
  intros Hev Hk st. unfold bind, call.
  assert (length (filter f [ev]) <= nw) as Hev' by exact Hev.
  destruct (g (fst st)) as [[x | e] w].
  - destruct (Hk x (w, snd st ++ [ev])) as (e2 & Htr & Hn).
    exists (ev :: e2). split; [|split; [reflexivity|]].
    + rewrite Htr. simpl. now rewrite <- app_assoc.
    + unfold at_most in *. simpl in *. destruct (f ev); simpl in *; lia.
  - exists [ev]. split; [reflexivity | split; [reflexivity|]].
    unfold at_most. lia.
Qed.

Lemma emits_process_submission (E : Env) (f : event E -> bool)
    (uploaded_file : list ascii) (question : pystr) (nw ng ns : nat) :
  (forall path data, at_most f nw [FileWrite path data]) ->
  (forall text, at_most f ng [GenerateContent text]) ->
  (forall sql db_file, length (filter f (sqlite_calls sql db_file)) <= ns) ->
  (forall ev, is_inspection ev = true -> f ev = false) ->
  (forall ev, is_display ev = true -> f ev = false) ->
  emits (process_submission E uploaded_file question)
        (fun evs =>
           hd_error evs = Some (FileWrite temp_database uploaded_file)
           /\ at_most f (nw + (0 + (0 + (ng + ns)))) evs).
Proof.
  intros Hw Hg Hs Hinsp Hshow. unfold process_submission.
  apply emits_bind_call_head; [apply Hw | intros _].
  apply emits_bind; [now apply emits_inspector | intro schema_info].
  apply emits_bind; [apply emits_items | intro schema_items].
  apply emits_bind.
  { unfold get_gemini_response.
    apply (emits_weaken E f _ _ (ng + 0) ng); [lia|].
    apply emits_bind; [apply emits_call_bound, Hg | intro; apply emits_ret]. }
  intro response.
  apply (emits_bind E f _ _ _ _ 0 ns);
    [apply emits_show_quiet, Hshow; reflexivity | intros _].
  apply (emits_bind E f _ _ _ _ 0 ns);
    [apply emits_show_quiet, Hshow; reflexivity | intros _].
  apply (emits_bind E f _ _ _ _ 0 ns).
  { unfold validate_sql_query_dyn.
    apply (emits_bind E f _ _ _ _ 0 0);
      [apply emits_items | intro; apply emits_ret]. }
  intro corrected_query.
  apply (emits_bind E f _ _ _ _ 0 ns);
    [apply emits_show_quiet, Hshow; reflexivity | intros _].
  apply (emits_bind E f _ _ _ _ 0 ns);
    [apply emits_show_quiet, Hshow; reflexivity | intros _].
  apply (emits_weaken E f _ _ (ns + 0) ns); [lia|].
  apply emits_bind; [apply emits_read_sql_query, Hs | intro result].
  apply (emits_bind E f _ _ _ _ 0 0);
    [apply emits_show_quiet, Hshow; reflexivity | intros _].
  destruct result as [rows | msg].
  - apply emits_for_each. intro row. apply emits_show_quiet, Hshow. reflexivity.
  - apply emits_show_quiet, Hshow. reflexivity.
Qed.

(** In one submission the processing chain first writes the uploaded file,
    once, then calls the generative service at most once and executes at
    most one SQL statement, whatever the libraries answer: nothing is
    retried. *)
Theorem submission_makes_each_call_at_most_once
    (E : Env) (uploaded_file : list ascii) (question : pystr)
    (st : run_state E) :
  exists evs,
    snd (snd (process_submission E uploaded_file question st)) = snd st ++ evs
    /\ hd_error evs = Some (FileWrite temp_database uploaded_file)
    /\ at_most is_file_write 1 evs
    /\ at_most is_network_call 1 evs
    /\ at_most is_sql_execute 1 evs.
Proof.
  destruct (emits_process_submission E is_file_write uploaded_file question
              1 0 0) with (st := st) as (e1 & Htr1 & Hhd & Hn1);
    try (intros; unfold at_most; simpl; lia);
    try (intros [] H; (discriminate H || reflexivity)).
  destruct (emits_process_submission E is_network_call uploaded_file question
              0 1 0) with (st := st) as (e2 & Htr2 & _ & Hn2);
    try (intros; unfold at_most; simpl; lia);
    try (intros [] H; (discriminate H || reflexivity)).
  destruct (emits_process_submission E is_sql_execute uploaded_file question
              0 0 1) with (st := st) as (e3 & Htr3 & _ & Hn3);
    try (intros; unfold at_most; simpl; lia);
    try (intros [] H; (discriminate H || reflexivity)).
  assert (e2 = e1) as -> by (apply (app_inv_head (snd st)); congruence).
  assert (e3 = e1) as -> by (apply (app_inv_head (snd st)); congruence).
  exists e1. repeat split; auto.
Qed.

(** When the schema inspector returns an error string, the processing chain
    raises [AttributeError] at [schema_info.items()] and ends in the state
    the inspector left: the service is not called and no SQL is executed. *)
Theorem inspection_error_stops_the_chain
    (E : Env) (uploaded_file : list ascii) (question : pystr)
    (st : run_state E) (w1 : World E) (msg : pystr) (s2 : run_state E)
    (Hwrite : write_file E temp_database uploaded_file (fst st) = (Ret tt, w1))
    (Hschema :
       get_schema_info_with_sqlalchemy E temp_database
         (w1, snd st ++ [FileWrite temp_database uploaded_file])
       = (Ret (SchemaError msg), s2)) :
  process_submission E uploaded_file question st
  = (Raise (Exn AttributeError (py "'str' object has no attribute 'items'")),
     s2).
Proof.
  unfold process_submission. unfold bind at 1. unfold call at 1.
  rewrite Hwrite. unfold bind at 1. rewrite Hschema. reflexivity.
Qed.

Lemma inspection_error_stops_the_chain_witness :
  process_submission
    (toy_env (Some (Exn SQLAlchemyError (py "file is not a database")))
             fenced_answer)
    (py "not a database") (py "How many?") (empty_table_db, [])
  = (Raise (Exn AttributeError (py "'str' object has no attribute 'items'")),
     ({| files := [(temp_database, py "not a database")];
         tables := tables empty_table_db;
         pending := [] |},
      [FileWrite temp_database (py "not a database");
       CreateEngine (py "sqlite:///temp_database.db"); Inspect])).
Proof.
  apply (inspection_error_stops_the_chain
           (toy_env (Some (Exn SQLAlchemyError (py "file is not a database")))
                    fenced_answer)
           (py "not a database") (py "How many?") (empty_table_db, [])
           {| files := [(temp_database, py "not a database")];
              tables := tables empty_table_db;
              pending := [] |}
           (py "file is not a database"));
    reflexivity.
Defined.

Lemma for_each_show_rows (E : Env) (rows : list (Row E)) (st : run_state E) :
  for_each E rows (fun row => show E (StWrite row)) st
  = (Ret tt, (fst st, snd st ++ map StWrite rows)).
Proof.
  revert st. induction rows as [|row rows IH]; intros [w tr]; simpl.
  - unfold ret. now rewrite app_nil_r.
  - unfold bind, show. simpl. rewrite IH. simpl. now rewrite <- app_assoc.
Qed.

(** A submission whose steps all go through runs, against the database, the
    corrected form of the cleaned answer of the service, after showing the
    generated and the corrected query; then it shows the heading of the
    results and either one line per row, in order, or one message made of
    [Error: ] and the error string. *)
Theorem submission_executes_corrected_query
    (E : Env) (uploaded_file : list ascii) (question : pystr)
    (st : run_state E) (w1 : World E) (m : schema) (s2 : run_state E)
    (response : pystr) (s3 : run_state E)
    (result : query_result (Row E)) (s4 : run_state E)
    (Hwrite : write_file E temp_database uploaded_file (fst st) = (Ret tt, w1))
    (Hschema :
       get_schema_info_with_sqlalchemy E temp_database
         (w1, snd st ++ [FileWrite temp_database uploaded_file])
       = (Ret (SchemaMapping m), s2))
    (Hanswer :
       get_gemini_response E question (format_schema_info m) s2
       = (Ret response, s3))
    (Hquery :
       read_sql_query E (validate_sql_query response m) temp_database
         (fst s3,
          snd s3 ++ [StSubheader (py "Generated SQL Query:"); StCode response;
                     StSubheader (py "Corrected SQL Query:");
                     StCode (validate_sql_query response m)])
       = (Ret result, s4)) :
  process_submission E uploaded_file question st
  = (Ret tt,
     (fst s4,
      snd s4 ++ StSubheader (py "Query Results:") :: rendered_result result)).
Proof.
  unfold process_submission. unfold bind at 1. unfold call at 1.
  rewrite Hwrite. unfold bind at 1. rewrite Hschema.
  unfold bind at 1. unfold items at 1, ret at 1.
  unfold bind at 1. rewrite Hanswer.
  unfold validate_sql_query_dyn, items, bind, show, ret. cbn [fst snd].
  rewrite <- !app_assoc. cbn [app].
  rewrite Hquery.
  destruct result as [rows | msg]; cbn [rendered_result].
  - rewrite for_each_show_rows. cbn [fst snd]. now rewrite <- app_assoc.
  - cbn [fst snd]. now rewrite <- app_assoc.
Qed.

Lemma submission_executes_corrected_query_witness :
  process_submission listing_env (py "SQLite format 3")
    (py "Show everything") (two_rows_db, [])
  = (Ret tt,
     (two_rows_fetched,
      listing_trace
      ++ [GenerateContent (prompt (py "Show everything") (py "Table t: a"));
          StSubheader (py "Generated SQL Query:");
          StCode (py "SELECT * FROM t;");
          StSubheader (py "Corrected SQL Query:");
          StCode (py "SELECT * FROM t;");
          SqlConnect temp_database; SqlCursor;
          SqlExecute (py "SELECT * FROM t;");
          SqlFetchall; SqlCommit; SqlClose;
          StSubheader (py "Query Results:");
          @StWrite listing_env [1]; @StWrite listing_env [2]])).
Proof.
  apply (submission_executes_corrected_query listing_env
           (py "SQLite format 3") (py "Show everything") (two_rows_db, [])
           two_rows_stored [(py "t", [py "a"])]
           (two_rows_stored, listing_trace)
           (py "SELECT * FROM t;")
           (two_rows_stored,
            listing_trace
            ++ [GenerateContent
                  (prompt (py "Show everything") (py "Table t: a"))])
           (Rows [[1]; [2]])
           (two_rows_fetched,
            listing_trace
            ++ [GenerateContent
                  (prompt (py "Show everything") (py "Table t: a"));
                StSubheader (py "Generated SQL Query:");
                StCode (py "SELECT * FROM t;");
                StSubheader (py "Corrected SQL Query:");
                StCode (py "SELECT * FROM t;");
                SqlConnect temp_database; SqlCursor;
                SqlExecute (py "SELECT * FROM t;");
                SqlFetchall; SqlCommit; SqlClose]));
    vm_compute; reflexivity.
Defined.

(* ================================================================= *)
(** * The code against its interfaces, and on any text *)

(** ** The query executor against the sqlite3 interface *)

Lemma sqlite_run_total (E : Env) (sql db_file : pystr) (w0 : World E) :
  exists outcome n w, sqlite_run E sql db_file w0 outcome n w.
Proof.
  destruct (sqlite3_connect E db_file w0) as [[conn | e] w1] eqn:H1;
    [|eauto using connect_raises].
  destruct (conn_cursor E conn w1) as [[cur | e] w2] eqn:H2;
    [|eauto using cursor_raises].
  destruct (cur_execute E cur sql w2) as [[[] | e] w3] eqn:H3;
    [|eauto using execute_raises].
  destruct (cur_fetchall E cur w3) as [[rows | e] w4] eqn:H4;
    [|eauto using fetchall_raises].
  destruct (conn_commit E conn w4) as [[[] | e] w5] eqn:H5;
    [|eauto using commit_raises].
  destruct (conn_close E conn w5) as [[[] | e] w6] eqn:H6;
    [eauto using all_calls_succeed | eauto using close_raises].
Qed.

(** The executor does what the run of the interface says: it returns the
    rows or the exception's string, leaves the world of the last call, and
    has recorded the calls made. *)
Lemma read_sql_query_follows_run (E : Env) (sql db_file : pystr)
    (st : run_state E) (outcome : result (list (Row E))) (n : nat)
    (w : World E) :
  sqlite_run E sql db_file (fst st) outcome n w ->
  read_sql_query E sql db_file st
  = (Ret (returned_value outcome),
     (w, snd st ++ firstn n (sqlite_calls sql db_file))).
Proof.
  intro Hrun.
  unfold read_sql_query, read_sql_query_body, try_except, bind, call, ret,
    sqlite_calls.
  cbn [fst snd].
  destruct Hrun;
    repeat match goal with
           | H : _ = (_, _) |- _ => rewrite H; clear H; cbn [fst snd]
           end;
    cbn; rewrite <- ?app_assoc; reflexivity.
Qed.

(** C6.  The executor never raises: for every SQL string and database file
    and whatever the sqlite3 calls do, it returns a value.  When one of the
    calls raises, that value is the string of the exception of the first
    call that raised; when all of them succeed, it is the sequence of rows
    that [fetchall] gave, in its order. *)
Theorem read_sql_query_returns_rows_or_error_string
    (E : Env) (sql db_file : pystr) (st : run_state E) :
  (exists v st', read_sql_query E sql db_file st = (Ret v, st'))
  /\ (exists outcome n w, sqlite_run E sql db_file (fst st) outcome n w)
  /\ (forall outcome n w,
        sqlite_run E sql db_file (fst st) outcome n w ->
        fst (read_sql_query E sql db_file st) = Ret (returned_value outcome)).
Proof.
  destruct (sqlite_run_total E sql db_file (fst st)) as (outcome & n & w & Hrun).
  split; [|split].
  - rewrite (read_sql_query_follows_run E sql db_file st outcome n w Hrun).
    eauto.
  - eauto.
  - intros outcome' n' w' Hrun'.
    now rewrite (read_sql_query_follows_run E sql db_file st outcome' n' w' Hrun').
Qed.

Lemma read_sql_query_returns_rows_or_error_string_witness :
  fst (read_sql_query (toy_env None fenced_answer) (py "SELEC * FROM t;")
         (py "temp_database.db") (empty_table_db, []))
  = Ret (ErrorText (py "unsupported statement"))
  /\ fst (read_sql_query (toy_env None fenced_answer) (py "SELECT * FROM t;")
            (py "temp_database.db") (two_rows_db, []))
     = Ret (Rows [[1]; [2]]).
Proof.
  split.
  - apply (proj2 (proj2 (read_sql_query_returns_rows_or_error_string
                           (toy_env None fenced_answer) (py "SELEC * FROM t;")
                           (py "temp_database.db") (empty_table_db, [])))
             (Raise (Exn Sqlite3Error (py "unsupported statement"))) 3
             empty_table_db).
    apply (execute_raises (toy_env None fenced_answer) (py "SELEC * FROM t;")
             (py "temp_database.db") empty_table_db tt empty_table_db tt
             empty_table_db (Exn Sqlite3Error (py "unsupported statement"))
             empty_table_db); reflexivity.
  - apply (proj2 (proj2 (read_sql_query_returns_rows_or_error_string
                           (toy_env None fenced_answer) (py "SELECT * FROM t;")
                           (py "temp_database.db") (two_rows_db, [])))
             (Ret [[1]; [2]]) 6
             {| files := []; tables := tables two_rows_db;
                pending := [[1]; [2]] |}).
    apply (all_calls_succeed (toy_env None fenced_answer)
             (py "SELECT * FROM t;") (py "temp_database.db") two_rows_db
             tt two_rows_db tt two_rows_db
             {| files := []; tables := tables two_rows_db;
                pending := [[1]; [2]] |}
             [[1]; [2]]
             {| files := []; tables := tables two_rows_db;
                pending := [[1]; [2]] |}
             {| files := []; tables := tables two_rows_db;
                pending := [[1]; [2]] |}
             {| files := []; tables := tables two_rows_db;
                pending := [[1]; [2]] |}); reflexivity.
Defined.

(** The executor makes the sqlite3 calls [connect], [cursor], [execute],
    [fetchall], [commit], [close] in this order and stops at the first that
    raises: when the k-th call raises, exactly the first k calls have been
    made (so nothing is committed after a failed statement and the
    connection is not closed), and the world is the one that call left; all
    six are made when none raises. *)
Theorem executor_stops_at_first_failure
    (E : Env) (sql db_file : pystr) (st : run_state E)
    (outcome : result (list (Row E))) (n : nat) (w : World E)
    (Hrun : sqlite_run E sql db_file (fst st) outcome n w) :
  snd (read_sql_query E sql db_file st)
  = (w, snd st ++ firstn n (sqlite_calls sql db_file))
  /\ 1 <= n <= 6
  /\ (forall rows, outcome = Ret rows -> n = 6).
Proof.
  rewrite (read_sql_query_follows_run E sql db_file st outcome n w Hrun).
  split; [reflexivity|]. destruct Hrun; (split; [lia|]); intros r Hr;
    (discriminate Hr || reflexivity).
Qed.

Lemma executor_stops_at_first_failure_witness :
  snd (read_sql_query (toy_env None fenced_answer) (py "SELEC * FROM t;")
         (py "temp_database.db") (empty_table_db, []))
  = (empty_table_db,
     [SqlConnect (py "temp_database.db"); SqlCursor;
      SqlExecute (py "SELEC * FROM t;")]).
Proof.
  apply (proj1 (executor_stops_at_first_failure
                  (toy_env None fenced_answer) (py "SELEC * FROM t;")
                  (py "temp_database.db") (empty_table_db, [])
                  (Raise (Exn Sqlite3Error (py "unsupported statement"))) 3
                  empty_table_db
                  (execute_raises (toy_env None fenced_answer)
                     (py "SELEC * FROM t;") (py "temp_database.db")
                     empty_table_db tt empty_table_db tt empty_table_db
                     (Exn Sqlite3Error (py "unsupported statement"))
                     empty_table_db eq_refl eq_refl eq_refl))).
Defined.

(** ** The schema inspector against the SQLAlchemy interface *)

Lemma columns_run_total (E : Env) (inspector : Inspector E)
    (table_names : list pystr) (w : World E) :
  exists r w', columns_run E inspector table_names w r w'.
Proof.
  revert w. induction table_names as [|table rest IH]; intro w.
  - eauto using no_table_left.
  - destruct (get_columns E inspector table w) as [[columns | e] w'] eqn:H;
      [|eauto using get_columns_raises].
    destruct (IH w') as (r & w'' & Hrest).
    eauto using get_columns_returns.
Qed.

Lemma inspection_run_total (E : Env) (db_file : pystr) (w0 : World E) :
  exists r w, inspection_run E db_file w0 r w.
Proof.
  destruct (create_engine E (py "sqlite:///" ++ db_file) w0)
    as [[engine | e] w1] eqn:H1; [|eauto using create_engine_raises].
  destruct (inspect E engine w1) as [[inspector | e] w2] eqn:H2;
    [|eauto using inspect_raises].
  destruct (get_table_names E inspector w2) as [[table_names | e] w3] eqn:H3;
    [|eauto using get_table_names_raises].
  destruct (columns_run_total E inspector table_names w3) as (r & w4 & H4).
  eauto using tables_listed.
Qed.

Lemma collect_columns_follows_run (E : Env) (inspector : Inspector E)
    (table_names : list pystr) (w : World E)
    (r : result (list (pystr * list pystr))) (w' : World E) :
  columns_run E inspector table_names w r w' ->
  forall (acc : schema) (tr : list (event E)),
  exists tr',
    collect_columns E inspector table_names acc (w, tr)
    = (match r with
       | Ret l => Ret (assigned l acc)
       | Raise e => Raise e
       end, (w', tr')).
Proof.
  induction 1 as [w | table rest w e w' Hcall
                 | table rest w columns w' r w'' Hcall Hrest IH];
    intros acc tr; simpl; unfold bind, call; cbn [fst snd].
  - unfold ret. eauto.
  - rewrite Hcall. eauto.
  - rewrite Hcall.
    destruct (IH (dict_set acc table (map (column_name E) columns))
                 (tr ++ [GetColumns table])) as (tr' & Hrun).
    exists tr'. rewrite Hrun. destruct r; reflexivity.
Qed.

Lemma get_schema_info_follows_run (E : Env) (db_file : pystr)
    (st : run_state E) (r : result (list (pystr * list pystr)))
    (w : World E) :
  inspection_run E db_file (fst st) r w ->
  exists tr,
    get_schema_info_with_sqlalchemy E db_file st = (inspector_value r, (w, tr)).
Proof.
  intro Hrun. rewrite get_schema_info_run.
  unfold get_schema_info_body, bind, call. cbn [fst snd].
  destruct Hrun as [e w1 H1 | engine w1 e w2 H1 H2
                   | engine w1 inspector w2 e w3 H1 H2 H3
                   | engine w1 inspector w2 table_names w3 r w4 H1 H2 H3 H4];
    rewrite H1; cbn [fst snd];
    try (rewrite H2; cbn [fst snd]); try (rewrite H3; cbn [fst snd]).
  - unfold inspector_value. destruct (isinstance e SQLAlchemyError); eauto.
  - unfold inspector_value. destruct (isinstance e SQLAlchemyError); eauto.
  - unfold inspector_value. destruct (isinstance e SQLAlchemyError); eauto.
  - destruct (collect_columns_follows_run E inspector table_names w3 r w4 H4 []
                (((snd st ++ [CreateEngine (py "sqlite:///" ++ db_file)])
                  ++ [Inspect]) ++ [GetTableNames])) as (tr' & Hloop).
    rewrite Hloop. unfold inspector_value. destruct r as [l | e].
    + eauto.
    + destruct (isinstance e SQLAlchemyError); eauto.
Qed.

(** C7, amended.  Whatever call of the introspection raises first
    ([create_engine], [inspect], [get_table_names], or [get_columns] for
    some table), when the exception is a [SQLAlchemyError] the schema
    inspector returns its string description instead of a mapping and does
    not raise; an exception of any other class passes its boundary; when no
    call raises it returns the mapping. *)
Theorem inspector_returns_string_for_sqlalchemy_errors
    (E : Env) (db_file : pystr) (st : run_state E) :
  (exists r w, inspection_run E db_file (fst st) r w)
  /\ (forall r w,
        inspection_run E db_file (fst st) r w ->
        fst (get_schema_info_with_sqlalchemy E db_file st) = inspector_value r
        /\ fst (snd (get_schema_info_with_sqlalchemy E db_file st)) = w)
  /\ (forall e w,
        inspection_run E db_file (fst st) (Raise e) w ->
        isinstance e SQLAlchemyError = true ->
        fst (get_schema_info_with_sqlalchemy E db_file st)
        = Ret (SchemaError (str_of e)))
  /\ (forall e w,
        inspection_run E db_file (fst st) (Raise e) w ->
        isinstance e SQLAlchemyError = false ->
        fst (get_schema_info_with_sqlalchemy E db_file st) = Raise e).
Proof.
  split; [apply inspection_run_total|].
  split; [|split].
  - intros r w Hrun.
    destruct (get_schema_info_follows_run E db_file st r w Hrun) as (tr & ->).
    split; reflexivity.
  - intros e w Hrun Hclass.
    destruct (get_schema_info_follows_run E db_file st _ w Hrun) as (tr & ->).
    cbn [fst inspector_value]. now rewrite Hclass.
  - intros e w Hrun Hclass.
    destruct (get_schema_info_follows_run E db_file st _ w Hrun) as (tr & ->).
    cbn [fst inspector_value]. now rewrite Hclass.
Qed.

Lemma inspector_returns_string_for_sqlalchemy_errors_witness :
  fst (get_schema_info_with_sqlalchemy
         (toy_env None fenced_answer) (py "temp_database.db")
         ({| files := []; tables := []; pending := [] |}, []))
  = Ret (SchemaMapping [])
  /\ fst (get_schema_info_with_sqlalchemy
            (toy_env (Some (Exn SQLAlchemyError (py "file is not a database")))
                     fenced_answer)
            (py "temp_database.db") (empty_table_db, []))
     = Ret (SchemaError (py "file is not a database")).
Proof.
  split.
  - apply (proj1 (proj2 (inspector_returns_string_for_sqlalchemy_errors
                           (toy_env None fenced_answer)
                           (py "temp_database.db")
                           ({| files := []; tables := []; pending := [] |}, [])))
             (Ret []) {| files := []; tables := []; pending := [] |}).
    apply (tables_listed (toy_env None fenced_answer) (py "temp_database.db")
             {| files := []; tables := []; pending := [] |} tt
             {| files := []; tables := []; pending := [] |} tt
             {| files := []; tables := []; pending := [] |} []
             {| files := []; tables := []; pending := [] |} (Ret [])
             {| files := []; tables := []; pending := [] |});
      try reflexivity.
    apply no_table_left.
  - apply (proj1 (proj2 (proj2
             (inspector_returns_string_for_sqlalchemy_errors
                (toy_env (Some (Exn SQLAlchemyError
                                  (py "file is not a database")))
                         fenced_answer)
                (py "temp_database.db") (empty_table_db, []))))
             (Exn SQLAlchemyError (py "file is not a database"))
             empty_table_db); [|reflexivity].
    apply (inspect_raises
             (toy_env (Some (Exn SQLAlchemyError (py "file is not a database")))
                      fenced_answer)
             (py "temp_database.db") empty_table_db tt empty_table_db
             (Exn SQLAlchemyError (py "file is not a database"))
             empty_table_db); reflexivity.
Defined.

(** ** The order in which the corrector handles the names *)

Lemma corrector_loops_flat (A : Type) (step : A -> pystr -> A)
    (schema_info : schema) (init : A) :
  corrector_loops step schema_info init
  = fold_left step (schema_names schema_info) init.
Proof.
  unfold corrector_loops, schema_names. revert init.
  induction schema_info as [|[table columns] rest IH]; intro init; simpl.
  - reflexivity.
  - rewrite fold_left_app. apply IH.
Qed.

Lemma correct_table_loops (query : pystr) (schema_info : schema)
    (cur : pystr) :
  fold_left (correct_table query) schema_info cur
  = corrector_loops (correct_name query) schema_info cur.
Proof.
  unfold corrector_loops. revert cur.
  induction schema_info as [|[table columns] rest IH]; intro cur;
    [reflexivity | apply IH].
Qed.

Lemma names_orders_agree (schema_info : schema) :
  Forall (fun item => snd item = []) (removelast schema_info) ->
  schema_names schema_info = tables_first_names schema_info.
Proof.
  unfold schema_names, tables_first_names.
  induction schema_info as [|[table columns] rest IH]; intro H; [reflexivity|].
  destruct rest as [|next rest].
  - simpl. now rewrite !app_nil_r.
  - change (removelast ((table, columns) :: next :: rest))
      with ((table, columns) :: removelast (next :: rest)) in H.
    inversion H as [|x l Hcols Hrest]; subst. simpl in Hcols. subst columns.
    specialize (IH Hrest).
    change (flat_map (fun item => fst item :: snd item)
              ((table, []) :: next :: rest))
      with (table :: flat_map (fun item => fst item :: snd item) (next :: rest)).
    rewrite IH. reflexivity.
Qed.

(** C3, as stated, fails, and the order alone makes it fail: with the table
    [t] of column [AB] followed by the table [bC], the code corrects [abc]
    to [ABc] and the two-phase algorithm of the specification gives [ABC].
    Keeping the substitution and changing only the order changes the output
    on both sides: the code's substitution with all tables first gives
    [ABC], not [ABc]; the specification's substitution table by table gives
    [AbC], not [ABC]. *)
Lemma order_of_names_changes_output :
  validate_sql_query (py "abc") [(py "t", [py "AB"]); (py "bC", [])]
  = py "ABc"
  /\ two_phase_reference (py "abc") [(py "t", [py "AB"]); (py "bC", [])]
     = py "ABC"
  /\ fold_left (correct_name (py "abc"))
       (tables_first_names [(py "t", [py "AB"]); (py "bC", [])]) (py "abc")
     = py "ABC"
  /\ fold_left (spec_correct_name (py "abc"))
       (schema_names [(py "t", [py "AB"]); (py "bC", [])]) (py "abc")
     = py "AbC"
  /\ validate_sql_query (py "abc") [(py "t", [py "AB"]); (py "bC", [])]
     <> two_phase_reference (py "abc") [(py "t", [py "AB"]); (py "bC", [])].
Proof.
  split; [reflexivity|]. split; [reflexivity|]. split; [reflexivity|].
  split; [reflexivity|]. vm_compute. discriminate.
Qed.

(** C3, amended.  The corrector handles the names in one pass in schema
    iteration order, table by table: a table's name, then the columns of
    that same table, then the next table.  This holds whatever is done with
    a name, and the corrector's output is that pass with its guarded
    substitution.  The order is the specification's (all tables before any
    column) when no table but the last has columns. *)
Theorem corrector_handles_names_table_by_table (schema_info : schema) :
  (forall (A : Type) (step : A -> pystr -> A) (init : A),
     corrector_loops step schema_info init
     = fold_left step (schema_names schema_info) init)
  /\ corrector_loops (fun handled name => handled ++ [name]) schema_info []
     = schema_names schema_info
  /\ (forall query,
        validate_sql_query query schema_info
        = corrector_loops (correct_name query) schema_info query)
  /\ (Forall (fun item => snd item = []) (removelast schema_info) ->
      schema_names schema_info = tables_first_names schema_info).
Proof.
  split; [intros; apply corrector_loops_flat|].
  split; [|split; [|apply names_orders_agree]].
  2:{ intro query. apply correct_table_loops. }
  rewrite corrector_loops_flat.
  generalize (schema_names schema_info) as names.
  assert (forall (names acc : list pystr),
            fold_left (fun handled name => handled ++ [name]) names acc
            = acc ++ names) as H.
  { induction names as [|n names IH]; intro acc; simpl;
      [now rewrite app_nil_r | rewrite IH; now rewrite <- app_assoc]. }
  intro names. apply (H names []).
Qed.

Lemma corrector_handles_names_table_by_table_witness :
  validate_sql_query (py "select name from users")
    [(py "Users", [py "ID"; py "Name"])]
  = fold_left (correct_name (py "select name from users"))
      (tables_first_names [(py "Users", [py "ID"; py "Name"])])
      (py "select name from users").
Proof.
  destruct (corrector_handles_names_table_by_table
              [(py "Users", [py "ID"; py "Name"])])
    as (Hflat & _ & Hcode & Horder).
  rewrite Hcode, Hflat, Horder; [reflexivity|].
  constructor.
Defined.

(** ** From text below U+0100 to any [str] *)

Lemma N_of_ascii_eqb (a b : ascii) :
  N.eqb (N_of_ascii a) (N_of_ascii b) = Ascii.eqb a b.
Proof.
  destruct (Ascii.eqb_spec a b) as [-> | Hne].
  - apply N.eqb_refl.
  - apply N.eqb_neq. intro H. apply Hne.
    rewrite <- (ascii_N_embedding a), <- (ascii_N_embedding b). now rewrite H.
Qed.

Lemma to_str_app (a b : pystr) : to_str (a ++ b) = to_str a ++ to_str b.
Proof. apply map_app. Qed.

Lemma to_str_length (s : pystr) : length (to_str s) = length s.
Proof. apply length_map. Qed.

Lemma str_startswith_to_str (s p : pystr) :
  str_startswith (to_str s) (to_str p) = startswith s p.
Proof.
  revert s. induction p as [|a p IH]; intros [|b s]; simpl; try reflexivity.
  now rewrite N_of_ascii_eqb, IH.
Qed.

Lemma str_contains_to_str (s sub : pystr) :
  str_contains (to_str s) (to_str sub) = contains s sub.
Proof.
  induction s as [|c s IH].
  - simpl. rewrite <- (str_startswith_to_str [] sub). reflexivity.
  - simpl. rewrite <- (str_startswith_to_str (c :: s) sub), <- IH.
    reflexivity.
Qed.

Lemma str_replace_scan_to_str (k : nat) (s old new : pystr) :
  str_replace_scan k (to_str s) (to_str old) (to_str new)
  = to_str (replace_scan k s old new).
Proof.
  revert k. induction s as [|c s IH]; intros [|k]; try reflexivity.
  - change (to_str (c :: s)) with (N_of_ascii c :: to_str s).
    cbn [str_replace_scan replace_scan].
    change (N_of_ascii c :: to_str s) with (to_str (c :: s)).
    rewrite (str_startswith_to_str (c :: s) old).
    destruct (startswith (c :: s) old).
    + rewrite to_str_app, to_str_length, IH. reflexivity.
    + change (to_str (c :: replace_scan 0 s old new))
        with (N_of_ascii c :: to_str (replace_scan 0 s old new)).
      now rewrite IH.
  - apply IH.
Qed.

Lemma str_replace_to_str (s old new : pystr) :
  str_replace (to_str s) (to_str old) (to_str new)
  = to_str (replace s old new).
Proof.
  destruct old as [|a old].
  - simpl. rewrite to_str_app. f_equal.
    induction s as [|c s IH]; simpl; [reflexivity|].
    rewrite to_str_app. now rewrite IH.
  - apply (str_replace_scan_to_str 0 s (a :: old) new).
Qed.

Section BelowU0100.

Variable str_lower : str -> str.
Hypothesis Hlower : lower_below_256 str_lower.

Lemma str_correct_name_to_str (query cur name : pystr) :
  str_correct_name str_lower (to_str query) (to_str cur) (to_str name)
  = to_str (correct_name query cur name).
Proof.
  unfold str_correct_name, correct_name.
  rewrite !Hlower, str_contains_to_str.
  destruct (contains (lower query) (lower name)); [|reflexivity].
  apply str_replace_to_str.
Qed.

Lemma fold_str_correct_name_to_str (query : pystr) (names : list pystr)
    (cur : pystr) :
  fold_left (str_correct_name str_lower (to_str query)) (map to_str names)
    (to_str cur)
  = to_str (fold_left (correct_name query) names cur).
Proof.
  revert cur. induction names as [|name names IH]; intro cur; simpl;
    [reflexivity|].
  now rewrite str_correct_name_to_str, IH.
Qed.

(** On text below U+0100 the corrector is [validate_sql_query]. *)
Lemma validate_sql_query_str_below_256 (query : pystr) (schema_info : schema) :
  validate_sql_query_str str_lower (to_str query) (to_str_schema schema_info)
  = to_str (validate_sql_query query schema_info).
Proof.
  unfold validate_sql_query_str, validate_sql_query.
  assert (forall cur,
            fold_left
              (fun (corrected_query : str) (item : str * list str) =>
                 let (table, columns) := item in
                 fold_left (str_correct_name str_lower (to_str query)) columns
                   (str_correct_name str_lower (to_str query)
                      corrected_query table))
              (to_str_schema schema_info) (to_str cur)
            = to_str (fold_left (correct_table query) schema_info cur)) as H.
  { induction schema_info as [|[table columns] rest IH]; intro cur; simpl;
      [reflexivity|].
    rewrite str_correct_name_to_str. unfold correct_columns.
    rewrite fold_str_correct_name_to_str. apply IH. }
  apply H.
Qed.

End BelowU0100.

Lemma latin1_lower_below_256 : lower_below_256 latin1_lower.
Proof.
  intro s. unfold latin1_lower, to_str, lower. rewrite !map_map.
  apply map_ext. intro c.
  assert (N.ltb (N_of_ascii c) 256 = true) as ->
    by (apply N.ltb_lt, N_ascii_bounded).
  now rewrite ascii_N_embedding.
Qed.

Lemma str_replace_absent (s old new : str) :
  str_contains s old = false -> str_replace s old new = s.
Proof.
  destruct old as [|a old].
  - intro H. exfalso. destruct s; simpl in H; discriminate.
  - unfold str_replace. induction s as [|c s IH]; intro H; [reflexivity|].
    change (str_contains (c :: s) (a :: old))
      with (str_startswith (c :: s) (a :: old) || str_contains s (a :: old))
      in H.
    apply orb_false_iff in H. destruct H as [Hsw Hrest].
    cbn [str_replace_scan]. rewrite Hsw. f_equal. apply IH, Hrest.
Qed.

Lemma fold_str_correct_name_absent (str_lower : str -> str) (query : str)
    (names : list str) (cur : str) :
  (forall name, In name names -> str_contains cur (str_lower name) = false) ->
  fold_left (str_correct_name str_lower query) names cur = cur.
Proof.
  induction names as [|name names IH]; intro H; simpl; [reflexivity|].
  assert (str_correct_name str_lower query cur name = cur) as ->.
  { unfold str_correct_name.
    destruct (str_contains (str_lower query) (str_lower name));
      [apply str_replace_absent, H; now left | reflexivity]. }
  apply IH. intros n Hn. apply H. now right.
Qed.

Lemma validate_sql_query_str_flat (str_lower : str -> str) (query : str)
    (schema_info : str_schema) :
  validate_sql_query_str str_lower query schema_info
  = fold_left (str_correct_name str_lower query)
      (str_schema_names schema_info) query.
Proof.
  unfold validate_sql_query_str, str_schema_names.
  assert (forall cur,
            fold_left
              (fun (corrected_query : str) (item : str * list str) =>
                 let (table, columns) := item in
                 fold_left (str_correct_name str_lower query) columns
                   (str_correct_name str_lower query corrected_query table))
              schema_info cur
            = fold_left (str_correct_name str_lower query)
                (flat_map (fun item => fst item :: snd item) schema_info)
                cur) as H.
  { induction schema_info as [|[table columns] rest IH]; intro cur; simpl.
    - reflexivity.
    - rewrite fold_left_app. simpl. apply IH. }
  apply H.
Qed.

(** ** The corrector on text below U+0100, stated on [str] *)

Lemma skipn_to_str (p : nat) (s : pystr) :
  skipn p (to_str s) = to_str (skipn p s).
Proof. unfold to_str. apply skipn_map. Qed.





Lemma occurs_at_to_str (s x : pystr) (p : nat) :
  occurs_at s p x -> str_occurs_at (to_str s) p (to_str x).
Proof.
  unfold occurs_at, str_occurs_at. intro H.
  now rewrite skipn_to_str, str_startswith_to_str.
Qed.

Lemma str_schema_names_to_str (schema_info : schema) :
  str_schema_names (to_str_schema schema_info)
  = map to_str (schema_names schema_info).
Proof.
  unfold str_schema_names, to_str_schema, schema_names.
  induction schema_info as [|[table columns] rest IH]; simpl; [reflexivity|].
  f_equal. rewrite map_app. f_equal. exact IH.
Qed.

Lemma str_startswith_split (s p : str) :
  str_startswith s p = true -> s = p ++ skipn (length p) s.
Proof.
  revert s. induction p as [|a p IH]; intros s H; simpl in *.
  - reflexivity.
  - destruct s as [|b s]; [discriminate|].
    apply andb_true_iff in H. destruct H as [Hab Hs].
    apply N.eqb_eq in Hab. subst b. simpl. f_equal. apply IH, Hs.
Qed.

Lemma str_contains_incl (s sub : str) :
  str_contains s sub = true -> incl sub s.
Proof.
  assert (forall t, str_startswith t sub = true -> incl sub t) as Hsw.
  { intros t H n Hn. rewrite (str_startswith_split _ _ H).
    apply in_or_app. now left. }
  induction s as [|c s IH]; simpl; intro H.
  - rewrite orb_false_r in H. now apply Hsw.
  - apply orb_true_iff in H. destruct H as [H | H]; [now apply Hsw|].
    intros n Hn. right. now apply IH.
Qed.

Lemma str_replace_scan_same (a : N) (x : str) (k : nat) (s : str) :
  str_replace_scan k s (a :: x) (a :: x) = skipn k s.
Proof.
  revert k. induction s as [|c s IH]; intros [|k]; try reflexivity.
  - cbn [str_replace_scan].
    destruct (str_startswith (c :: s) (a :: x)) eqn:Hsw.
    + rewrite IH. apply str_startswith_split in Hsw.
      simpl in Hsw. simpl. rewrite Nat.sub_0_r. symmetry. exact Hsw.
    + rewrite IH. reflexivity.
  - simpl. apply IH.
Qed.

Lemma str_replace_same (s x : str) : str_replace s x x = s.
Proof.
  destruct x as [|a x].
  - simpl. induction s as [|c s IH]; simpl; [reflexivity | now rewrite IH].
  - apply (str_replace_scan_same a x 0 s).
Qed.

Lemma lower_changes_some (name : pystr) :
  lower name <> name -> exists c, In c name /\ is_upper c = true.
Proof.
  induction name as [|c name IH]; intro H; [now contradiction H|].
  change (lower (c :: name)) with (lower_char c :: lower name) in H.
  destruct (ascii_dec (lower_char c) c) as [Hc | Hc].
  - destruct IH as (d & Hd & Hup).
    { intro Heq. apply H. now rewrite Hc, Heq. }
    exists d. split; [now right | exact Hup].
  - exists c. split; [now left | now apply lower_char_changes].
Qed.

Lemma is_small_letter_code_ascii (c : ascii) :
  is_small_letter_code (N_of_ascii c) = is_small_letter c.
Proof.
  unfold is_small_letter_code. rewrite ascii_N_embedding.
  rewrite (proj2 (N.ltb_lt _ _) (N_ascii_bounded c)). reflexivity.
Qed.

(** Beyond U+0100 a correction can change the length of the query and move
    what follows: with the table U+0130 and the column [Name], the query made
    of [i], U+0307, a space and [Name] loses one code point, and [Name]
    stands one place to the left. *)
Lemma beyond_U0100_length_and_positions_change :
  lower_below_256 lower_with_U0130
  /\ length (validate_sql_query_str lower_with_U0130
               ([105%N; 775%N] ++ to_str (py " Name"))
               [([304%N], [to_str (py "Name")])])
     = 6
  /\ str_occurs_at ([105%N; 775%N] ++ to_str (py " Name")) 3
       (to_str (py "Name"))
  /\ str_occurs_at
       (validate_sql_query_str lower_with_U0130
          ([105%N; 775%N] ++ to_str (py " Name"))
          [([304%N], [to_str (py "Name")])])
       2 (to_str (py "Name"))
  /\ ~ str_occurs_at
         (validate_sql_query_str lower_with_U0130
            ([105%N; 775%N] ++ to_str (py " Name"))
            [([304%N], [to_str (py "Name")])])
         3 (to_str (py "Name")).
Proof.
  split; [|split; [|split; [|split]]].
  - intro s. unfold to_str, lower.
    induction s as [|c s IH]; [reflexivity|].
    change (lower_with_U0130 (map N_of_ascii (c :: s)))
      with ((if N.eqb (N_of_ascii c) 304 then [105%N; 775%N]
             else latin1_lower [N_of_ascii c])
            ++ lower_with_U0130 (map N_of_ascii s)).
    rewrite IH.
    assert (N.eqb (N_of_ascii c) 304 = false) as ->.
    { apply N.eqb_neq. pose proof (N_ascii_bounded c). lia. }
    unfold latin1_lower. cbn [map].
    assert (N.ltb (N_of_ascii c) 256 = true) as ->
      by (apply N.ltb_lt, N_ascii_bounded).
    now rewrite ascii_N_embedding.
  - vm_compute. reflexivity.
  - vm_compute. reflexivity.
  - vm_compute. reflexivity.
  - unfold str_occurs_at. vm_compute. discriminate.
Qed.

(** ** What one application of the corrector rewrites and what it keeps *)




(** C10, amended.  A query in which the lowercase spelling [name.lower()]
    of no schema name occurs is returned unchanged, on any text.  On text
    below U+0100 the corrector changes letter-case only, and only at
    positions that lie inside an occurrence, in the query, of the
    all-lowercase spelling of a schema name; so every stretch of the query
    that no such occurrence overlaps (in particular a name in another
    casing) is left unchanged. *)
Theorem only_lowercase_spellings_rewritten (str_lower : str -> str) :
  (forall (query : str) (schema_info : str_schema),
     (forall name, In name (str_schema_names schema_info) ->
                   str_contains query (str_lower name) = false) ->
     validate_sql_query_str str_lower query schema_info = query)
  /\ (lower_below_256 str_lower ->
      forall (query : pystr) (schema_info : schema),
      exists out : pystr,
        validate_sql_query_str str_lower (to_str query)
          (to_str_schema schema_info)
        = to_str out
        /\ Forall2 upcase_of query out
        /\ (forall i,
              char_at out i <> char_at query i ->
              covered (schema_names schema_info) query i)
        /\ (forall p n,
              (forall i, p <= i < p + n ->
                         ~ covered (schema_names schema_info) query i) ->
              firstn n (skipn p out) = firstn n (skipn p query))).
Proof.
  split.
  - intros query schema_info H. rewrite validate_sql_query_str_flat.
    now apply fold_str_correct_name_absent.
  - intros Hlower query schema_info.
    exists (validate_sql_query query schema_info).
    split; [now apply validate_sql_query_str_below_256|].
    split; [apply validate_upcase|].
    split; [apply validate_changes_covered | apply validate_keeps_uncovered].
Qed.

Lemma only_lowercase_spellings_rewritten_witness :
  validate_sql_query_str latin1_lower
    (to_str (py "SELECT NAME FROM USERS") ++ [322%N])
    [(to_str (py "Users"), [to_str (py "Name")])]
  = to_str (py "SELECT NAME FROM USERS") ++ [322%N]
  /\ exists out : pystr,
       validate_sql_query_str latin1_lower
         (to_str (py "select Id, name from users"))
         (to_str_schema [(py "Users", [py "Id"; py "Name"])])
       = to_str out
       /\ firstn 2 (skipn 7 out) = py "Id".
Proof.
  destruct (only_lowercase_spellings_rewritten latin1_lower) as [Hnone Hin].
  split.
  - apply Hnone. intros name Hname. simpl in Hname.
    destruct Hname as [<- | [<- | []]]; vm_compute; reflexivity.
  - destruct (Hin latin1_lower_below_256 (py "select Id, name from users")
                [(py "Users", [py "Id"; py "Name"])])
      as (out & Hout & _ & _ & Hkeep).
    exists out. split; [exact Hout|].
    rewrite Hkeep; [reflexivity|].
    intros i Hi (name & p & Hname & _ & Hp & Hocc).
    unfold occurs_at in Hocc. simpl in Hname.
    destruct Hname as [<- | [<- | [<- | []]]]; simpl in Hp;
      do 9 (destruct p as [|p];
            [try lia; vm_compute in Hocc; discriminate Hocc|]);
      lia.
Defined.

(** ** Further properties of the corrector on text below U+0100 *)

(** On text below U+0100 the corrector only capitalises: the output is again
    such a text and has the length of the query, and wherever it differs
    from the query, the query holds a lowercase letter and the output the
    matching capital. *)
Theorem corrector_capitalises_below_U0100
    (str_lower : str -> str) (Hlower : lower_below_256 str_lower)
    (query : pystr) (schema_info : schema) :
  exists out : pystr,
    validate_sql_query_str str_lower (to_str query)
      (to_str_schema schema_info)
    = to_str out
    /\ length out = length query
    /\ forall i,
         char_at out i = char_at query i
         \/ (is_upper (char_at out i) = true
             /\ char_at query i = lower_char (char_at out i)).
Proof.
  exists (validate_sql_query query schema_info).
  split; [now apply validate_sql_query_str_below_256|].
  apply validate_capitalises.
Qed.

Lemma corrector_capitalises_below_U0100_witness :
  lower_below_256 latin1_lower
  /\ exists out : pystr,
       validate_sql_query_str latin1_lower
         (to_str (py "select name from users"))
         (to_str_schema [(py "Users", [py "Name"])])
       = to_str out
       /\ length out = length (py "select name from users")
       /\ forall i,
            char_at out i = char_at (py "select name from users") i
            \/ (is_upper (char_at out i) = true
                /\ char_at (py "select name from users") i
                   = lower_char (char_at out i)).
Proof.
  split; [exact latin1_lower_below_256|].
  exact (corrector_capitalises_below_U0100 latin1_lower
           latin1_lower_below_256 (py "select name from users")
           [(py "Users", [py "Name"])]).
Defined.

(** For a schema whose names hold only characters below U+0100, a query
    (any text) without any of the lowercase letters that have a capital
    below U+0100, such as a statement written in capitals throughout, is
    returned unchanged. *)
Theorem query_without_small_letters_kept
    (str_lower : str -> str) (Hlower : lower_below_256 str_lower)
    (query : str) (schema_info : schema)
    (Hcaps : forallb (fun n => negb (is_small_letter_code n)) query = true) :
  validate_sql_query_str str_lower query (to_str_schema schema_info) = query.
Proof.
  rewrite validate_sql_query_str_flat, str_schema_names_to_str.
  apply fold_left_fixed. intros name' Hin'.
  apply in_map_iff in Hin'. destruct Hin' as (name & <- & _).
  unfold str_correct_name. rewrite (Hlower name).
  destruct (str_contains (str_lower query) (to_str (lower name)));
    [|reflexivity].
  destruct (list_eq_dec ascii_dec (lower name) name) as [Heq | Hne].
  - rewrite Heq. apply str_replace_same.
  - apply str_replace_absent.
    destruct (str_contains query (to_str (lower name))) eqn:Hc;
      [exfalso | reflexivity].
    destruct (lower_changes_some name Hne) as (c & Hc_in & Hup).
    assert (In (N_of_ascii (lower_char c)) query) as Hq.
    { apply (str_contains_incl _ _ Hc). unfold to_str, lower.
      apply in_map, in_map, Hc_in. }
    rewrite forallb_forall in Hcaps. apply Hcaps in Hq.
    rewrite is_small_letter_code_ascii in Hq.
    rewrite (lower_of_upper_is_small c Hup) in Hq. discriminate Hq.
Qed.

Lemma query_without_small_letters_kept_witness :
  lower_below_256 latin1_lower
  /\ validate_sql_query_str latin1_lower
       (to_str (py "SELECT NAME FROM USERS WHERE CITY = ")
        ++ [321%N; 211%N; 68%N; 377%N])
       (to_str_schema [(py "Users", [py "Name"; py "City"])])
     = to_str (py "SELECT NAME FROM USERS WHERE CITY = ")
       ++ [321%N; 211%N; 68%N; 377%N].
Proof.
  split; [exact latin1_lower_below_256|].
  apply (query_without_small_letters_kept latin1_lower
           latin1_lower_below_256
           (to_str (py "SELECT NAME FROM USERS WHERE CITY = ")
            ++ [321%N; 211%N; 68%N; 377%N])
           [(py "Users", [py "Name"; py "City"])]).
  reflexivity.
Defined.

(** On text below U+0100, an all-lowercase spelling of a schema name that
    stands alone in the query (no all-lowercase spelling of a name the
    corrector rewrites overlaps it) is rewritten to the name in canonical
    case, at the same position. *)
Theorem lone_lowercase_spelling_corrected
    (str_lower : str -> str) (Hlower : lower_below_256 str_lower)
    (query : pystr) (schema_info : schema) (name : pystr) (p : nat)
    (Hin : In name (schema_names schema_info))
    (Hocc : occurs_at query p (lower name))
    (Halone : isolated (schema_names schema_info) query p name = true) :
  str_occurs_at
    (validate_sql_query_str str_lower (to_str query)
       (to_str_schema schema_info))
    p (to_str name).
Proof.
  rewrite (validate_sql_query_str_below_256 str_lower Hlower).
  apply occurs_at_to_str. now apply validate_rewrites_isolated.
Qed.

Lemma lone_lowercase_spelling_corrected_witness :
  lower_below_256 latin1_lower
  /\ str_occurs_at
       (validate_sql_query_str latin1_lower
          (to_str (py "select name from users where user_id = 1"))
          (to_str_schema [(py "Users", [py "Name"; py "User_ID"])]))
       7 (to_str (py "Name")).
Proof.
  split; [exact latin1_lower_below_256|].
  apply (lone_lowercase_spelling_corrected latin1_lower
           latin1_lower_below_256
           (py "select name from users where user_id = 1")
           [(py "Users", [py "Name"; py "User_ID"])] (py "Name") 7).
  - simpl. auto.
  - reflexivity.
  - reflexivity.
Defined.
